(** * docx_proc.py: the quiz parser [parse_quiz_content]

    A shallow embedding of [src/docx_proc.py] and the properties of its
    answer-key extraction, question-block extraction and body segmentation.

    Text is a list of characters.  A character is a code point below 256
    (Rocq's [ascii]); the character classes below are Python 3's Unicode
    classes restricted to that range. *)

From Stdlib Require Import Ascii String NArith ZArith.
From stdpp Require Import base option list gmap.

Local Open Scope char_scope.
Local Open Scope list_scope.

(** ** Text *)

Definition text := list ascii.

(** A Python string literal. *)
Definition txt (s : string) : text := list_ascii_of_string s.

Definition code (c : ascii) : N := N_of_ascii c.

Definition in_range (lo hi : N) (c : ascii) : bool :=
  ((lo <=? code c) && (code c <=? hi))%N.

(** [str.isspace] on one character, which is also the class [\s] of [re] on
    [str] patterns: TAB..CR, FS..US, SPACE, NEL, NBSP. *)
Definition isspace (c : ascii) : bool :=
  in_range 9 13 c || in_range 28 32 c || (code c =? 133)%N || (code c =? 160)%N.

(** The class [\d] of [re] on [str] patterns: the decimal digits. *)
Definition isdecimal (c : ascii) : bool := in_range 48 57 c.

(** [str.isalnum] on one character. *)
Definition isalnum (c : ascii) : bool :=
  in_range 48 57 c || in_range 65 90 c || in_range 97 122 c
  || (code c =? 170)%N || in_range 178 179 c || (code c =? 181)%N
  || in_range 185 186 c || in_range 188 190 c
  || in_range 192 214 c || in_range 216 246 c || in_range 248 255 c.

(** The class [\w]: alphanumerics and the underscore. *)
Definition isword (c : ascii) : bool := isalnum c || (code c =? 95)%N.

(** The line boundaries of [str.splitlines]: LF, VT, FF, CR, FS, GS, RS, NEL. *)
Definition islinebreak (c : ascii) : bool :=
  in_range 10 13 c || in_range 28 30 c || (code c =? 133)%N.

Definition LF : ascii := "010".
Definition CR : ascii := "013".

Definition ascii_eqb (a b : ascii) : bool := Ascii.eqb a b.

(** [s.startswith(p)] *)
Fixpoint starts_with (p s : text) : bool :=
  match p, s with
  | [], _ => true
  | a :: p', b :: s' => ascii_eqb a b && starts_with p' s'
  | _ :: _, [] => false
  end.

(** ** Exceptions and printed output

    A computation yields a value or raises, and prints lines on the way. *)

Inductive exn := ValueError | IndexError.

Inductive outcome (A : Type) :=
| Returned (v : A)
| Raised (e : exn).
Arguments Returned {A} v.
Arguments Raised {A} e.

Definition M (A : Type) : Type := list text * outcome A.

Definition ret {A} (v : A) : M A := ([], Returned v).
Definition raise {A} (e : exn) : M A := ([], Raised e).
Definition print (line : text) : M unit := ([line], Returned tt).

Definition bind {A B} (m : M A) (f : A -> M B) : M B :=
  match m with
  | (out, Returned v) => let '(out', r) := f v in (out ++ out', r)
  | (out, Raised e) => (out, Raised e)
  end.

(** [try: m  except ValueError: h] *)
Definition try_except {A} (m : M A) (h : M A) : M A :=
  match m with
  | (out, Raised ValueError) => let '(out', r) := h in (out ++ out', r)
  | (out, Raised IndexError) => m
  | (out, Returned _) => m
  end.

Notation "'let!' x ':=' m 'in' k" := (bind m (fun x => k))
  (at level 10, x pattern, m at level 100, k at level 200).

Fixpoint for_each {A B} (f : A -> M B) (l : list A) : M (list B) :=
  match l with
  | [] => ret []
  | x :: l' => let! y := f x in let! ys := for_each f l' in ret (y :: ys)
  end.

(** ** String methods *)

(** [s.split(sep)] for a non-empty [sep]: the pieces between the successive
    non-overlapping occurrences of [sep], found left to right.  [cur] holds
    the characters of the current piece, last first. *)
Fixpoint split_from (fuel : nat) (sep : text) (cur : text) (s : text)
  : list text :=
  match fuel with
  | O => [rev cur]
  | S fuel' =>
      match s with
      | [] => [rev cur]
      | c :: s' =>
          if starts_with sep s
          then rev cur :: split_from fuel' sep [] (drop (length sep) s)
          else split_from fuel' sep (c :: cur) s'
      end
  end.

Definition split (sep s : text) : list text :=
  split_from (S (length s)) sep [] s.

(** [a, b = parts]: unpacking into exactly two targets. *)
Definition unpack2 (parts : list text) : M (text * text) :=
  match parts with
  | [a; b] => ret (a, b)
  | _ => raise ValueError
  end.

Fixpoint lstrip (s : text) : text :=
  match s with
  | c :: s' => if isspace c then lstrip s' else s
  | [] => []
  end.

Definition rstrip (s : text) : text := rev (lstrip (rev s)).

(** [s.strip()] *)
Definition strip (s : text) : text := rstrip (lstrip s).

(** [s.splitlines()]: CR LF counts as one boundary, and a final boundary
    opens no further line.  [cur] is the current line, last character first;
    [after_cr] tells that the previous character was a CR boundary. *)
Fixpoint splitlines_from (after_cr : bool) (cur : text) (s : text)
  : list text :=
  match s with
  | [] => match cur with [] => [] | _ => [rev cur] end
  | c :: s' =>
      if after_cr && ascii_eqb c LF then splitlines_from false cur s'
      else if islinebreak c
           then rev cur :: splitlines_from (ascii_eqb c CR) [] s'
           else splitlines_from false (c :: cur) s'
  end.

Definition splitlines (s : text) : list text := splitlines_from false [] s.

(** [sep.join(parts)] *)
Fixpoint join (sep : text) (parts : list text) : text :=
  match parts with
  | [] => []
  | [p] => p
  | p :: ps => p ++ sep ++ join sep ps
  end.

(** The limit of CPython on the conversions between [int] and [str]: a
    decimal string of more than this many digits is refused with a
    [ValueError].  The script leaves the limit at its default. *)
Definition MAX_STR_DIGITS : nat := 4300.

(** [int(s)] on the strings a [\d+] group delivers: a non-empty run of
    decimal digits.  A run of more than [MAX_STR_DIGITS] digits, leading
    zeros counted, raises [ValueError].  Any other string is outside this
    fragment and counts as a [ValueError]. *)
Definition digit_value (c : ascii) : N := (code c - 48)%N.

Definition int_digits (s : text) : N :=
  fold_left (fun acc c => (10 * acc + digit_value c)%N) s 0%N.

Definition int (s : text) : M N :=
  match s with
  | [] => raise ValueError
  | _ =>
      if forallb isdecimal s
      then if (length s <=? MAX_STR_DIGITS)%nat
           then ret (int_digits s)
           else raise ValueError
      else raise ValueError
  end.

(** [l[lo:hi]] with Python's treatment of negative and out-of-range bounds. *)
Definition clamp_index (n : nat) (i : Z) : nat :=
  let i' := if (i <? 0)%Z then (i + Z.of_nat n)%Z else i in
  Z.to_nat (Z.min (Z.max i' 0) (Z.of_nat n)).

Definition slice {A} (l : list A) (lo hi : Z) : list A :=
  let a := clamp_index (length l) lo in
  let b := clamp_index (length l) hi in
  take (b - a) (drop a l).

(** [l[:hi]] *)
Definition slice_to {A} (l : list A) (hi : Z) : list A :=
  take (clamp_index (length l) hi) l.

(** [l[i]]: a negative index counts from the end, an index out of range
    raises. *)
Definition getitem {A} (l : list A) (i : Z) : M A :=
  let i' := if (i <? 0)%Z then (i + Z.of_nat (length l))%Z else i in
  if (i' <? 0)%Z then raise IndexError
  else match l !! Z.to_nat i' with
       | Some x => ret x
       | None => raise IndexError
       end.

(** [range(lo, hi)] *)
Definition range (lo hi : Z) : list Z :=
  map (fun k => (lo + Z.of_nat k)%Z) (seq 0 (Z.to_nat (hi - lo))).

(** [len(l)] *)
Definition len {A} (l : list A) : Z := Z.of_nat (length l).

(** ** Regular expressions

    The fragment of [re] the three patterns of the script are written in,
    with the matching order of a backtracking engine: alternatives left to
    right, a greedy repetition longest first, a lazy one shortest first. *)

Inductive regex :=
| Chars (l : text)                     (* literal characters *)
| Class (p : ascii -> bool)            (* one character of a class *)
| Repeat (p : ascii -> bool) (lo : nat) (hi : option nat) (greedy : bool)
                                       (* a quantified class *)
| Cat (r1 r2 : regex)
| Or (r1 r2 : regex)
| Group (n : nat) (r : regex)          (* capturing group number n *)
| Lookahead (r : regex)                (* (?=r) *)
| Bol                                  (* ^ without MULTILINE *)
| Eol.                                 (* $ without MULTILINE *)

Infix "+>" := Cat (at level 60, right associativity).

(** The matcher is at offset [pos], with [rest] still to read. *)
Record mstate := MState {
  pos : nat;
  rest : text;
  groups : list (nat * text)
}.

Definition or_else {A : Type} (a b : option A) : option A :=
  match a with
  | Some _ => a
  | None => b
  end.

Definition no_more (hi : option nat) : bool :=
  match hi with
  | Some O => true
  | _ => false
  end.

Fixpoint repeat_class {A : Type} (p : ascii -> bool) (greedy : bool)
    (lo : nat) (hi : option nat) (at_pos : nat) (gs : list (nat * text))
    (s : text) (k : mstate -> option A) {struct s} : option A :=
  let stop := match lo with
              | O => k (MState at_pos s gs)
              | S _ => None
              end in
  let more := match s with
              | c :: s' =>
                  if p c && negb (no_more hi)
                  then repeat_class p greedy (Nat.pred lo) (Nat.pred <$> hi)
                         (S at_pos) gs s' k
                  else None
              | [] => None
              end in
  if greedy then or_else more stop else or_else stop more.

Definition at_eol (s : text) : bool :=
  match s with
  | [] => true
  | [c] => ascii_eqb c LF
  | _ => false
  end.

Fixpoint run {A : Type} (r : regex) (st : mstate) (k : mstate -> option A)
  : option A :=
  match r with
  | Chars l =>
      if starts_with l (rest st)
      then k (MState (pos st + length l) (drop (length l) (rest st))
                (groups st))
      else None
  | Class p =>
      match rest st with
      | c :: s' => if p c then k (MState (S (pos st)) s' (groups st))
                   else None
      | [] => None
      end
  | Repeat p lo hi greedy =>
      repeat_class p greedy lo hi (pos st) (groups st) (rest st) k
  | Cat r1 r2 => run r1 st (fun st' => run r2 st' k)
  | Or r1 r2 => or_else (run r1 st k) (run r2 st k)
  | Group n r =>
      run r st (fun st' =>
        k (MState (pos st') (rest st')
             ((n, take (pos st' - pos st) (rest st)) :: groups st')))
  | Lookahead r =>
      match run r st Some with
      | Some _ => k st
      | None => None
      end
  | Bol => if Nat.eqb (pos st) 0 then k st else None
  | Eol => if at_eol (rest st) then k st else None
  end.

(** A match object: its span, its groups, and the text after it. *)
Record match_obj := Match {
  m_start : nat;
  m_end : nat;
  m_groups : list (nat * text);
  m_after : text
}.

Fixpoint assoc (n : nat) (gs : list (nat * text)) : option text :=
  match gs with
  | [] => None
  | (n', t) :: gs' => if Nat.eqb n n' then Some t else assoc n gs'
  end.

(** [m.group(n)], for a group that took part in the match. *)
Definition group (m : match_obj) (n : nat) : text :=
  default [] (assoc n (m_groups m)).

(** One attempt at offset [start].  With [must_advance] an empty match is
    refused (the attempt right after an empty match). *)
Definition attempt (r : regex) (must_advance : bool) (start : nat) (s : text)
  : option match_obj :=
  run r (MState start s [])
    (fun st => if must_advance && Nat.eqb (pos st) start then None
               else Some (Match start (pos st) (groups st) (rest st))).

(** [re.match(r, s)] *)
Definition re_match (r : regex) (s : text) : option match_obj :=
  attempt r false 0 s.

(** The leftmost match at or after offset [start]. *)
Fixpoint search_from (r : regex) (must_advance : bool) (start : nat)
    (s : text) : option match_obj :=
  match attempt r must_advance start s with
  | Some m => Some m
  | None =>
      match s with
      | [] => None
      | _ :: s' => search_from r false (S start) s'
      end
  end.

Fixpoint finditer_from (fuel : nat) (r : regex) (must_advance : bool)
    (start : nat) (s : text) : list match_obj :=
  match fuel with
  | O => []
  | S fuel' =>
      match search_from r must_advance start s with
      | None => []
      | Some m =>
          m :: finditer_from fuel' r (Nat.eqb (m_end m) (m_start m))
                 (m_end m) (m_after m)
      end
  end.

(** [re.finditer(r, s)]: the successive non-overlapping matches. *)
Definition finditer (r : regex) (s : text) : list match_obj :=
  finditer_from (2 * length s + 2) r false 0 s.

(** ** The patterns of [parse_quiz_content] *)

(** [[\s\S]] *)
Definition space_or_not (c : ascii) : bool := isspace c || negb (isspace c).

Definition one_of (l : text) (c : ascii) : bool := existsb (ascii_eqb c) l.

Definition QUESTION_MARKER : text := txt "Type: Multiple choice question".
Definition ANSWER_KEY : text := txt "Answer key".

Definition QUESTION_REGEX : regex :=
  Chars QUESTION_MARKER
  +> Repeat space_or_not 0 None false
  +> Chars (txt "Question ")
  +> Group 1 (Repeat isdecimal 1 None true)
  +> Chars (txt " ")
  +> Group 2 (Repeat space_or_not 0 None false)
  +> Lookahead (Or (Chars QUESTION_MARKER) (Or (Chars ANSWER_KEY) Eol)).

Definition ANSWER_REGEX : regex :=
  Group 1 (Repeat isdecimal 1 None true)
  +> Chars (txt ".")
  +> Group 2 (Class (in_range 97 100)).

Definition OPTION_PREFIX_PATTERN : regex :=
  Bol
  +> Repeat isspace 0 None true
  +> Group 1 (Or (Repeat (fun c => in_range 97 100 c || in_range 65 68 c)
                    1 (Some 1) true
                  +> Class (one_of (txt ".)")))
             (Or (Repeat isdecimal 1 (Some 1) true
                  +> Class (one_of (txt ".)")))
                 (Repeat isword 3 (Some 4) true)))
  +> Eol.

(** ** [parse_quiz_content] *)

Record QuizItem := {
  q_no : N;
  question : text;
  options : list text;
  answer_letter : text
}.

(** The default of [answer_map.get(q_num, 'N/A')]. *)
Definition NOT_FOUND : text := txt "N/A".

Definition WARNING : text :=
  txt "Warning: 'Answer key' header not found. No answers will be mapped.".

Fixpoint for_fold {A S} (f : S -> A -> M S) (l : list A) (s : S) : M S :=
  match l with
  | [] => ret s
  | x :: l' => let! s' := f s x in for_fold f l' s'
  end.

(** Step 2, lines 47-51: the text after the answer-key header. *)
Definition answer_key_block_of (doc_content : text) : M text :=
  try_except
    (let! (_, answer_key_block) := unpack2 (split ANSWER_KEY doc_content) in
     ret answer_key_block)
    (let! _ := print WARNING in ret []).

(** Step 2, lines 53-57: the answer map of the text after the header. *)
Definition answer_map_of (answer_key_block : text) : M (gmap N text) :=
  for_fold
    (fun (answer_map : gmap N text) m =>
       let! q_num := int (group m 1) in
       let answer_letter := group m 2 in
       ret (<[q_num := answer_letter]> answer_map))
    (finditer ANSWER_REGEX answer_key_block) ∅.

Definition extract_answers (doc_content : text) : M (gmap N text) :=
  let! answer_key_block := answer_key_block_of doc_content in
  answer_map_of answer_key_block.

Definition nonempty (s : text) : bool :=
  match s with
  | [] => false
  | _ :: _ => true
  end.

(** Step 3.1: [[line.strip() for line in body.splitlines() if line.strip()]] *)
Definition trimmed_lines (body : text) : list text :=
  map strip (List.filter (fun line => nonempty (strip line)) (splitlines body)).

Definition is_option_line (line : text) : bool :=
  match re_match OPTION_PREFIX_PATTERN line with
  | Some _ => true
  | None => false
  end.

(** The loop of lines 75-79 over the indices [ixs], leaving [-1] when no
    line matches. *)
Fixpoint scan_window (ixs : list Z) (lines : list text) : M Z :=
  match ixs with
  | [] => ret (-1)%Z
  | i :: ixs' =>
      let! line := getitem lines i in
      if is_option_line line then ret i else scan_window ixs' lines
  end.

(** Step 3.2, lines 72-83. *)
Definition find_option_start (lines : list text) : M Z :=
  let! option_start_index :=
    (if (4 <=? len lines)%Z
     then scan_window (range (len lines - 4) (len lines)) lines
     else ret (-1)%Z) in
  if (option_start_index =? -1)%Z && (4 <=? len lines)%Z
  then ret (len lines - 4)%Z
  else ret option_start_index.

(** Steps 3.2 and 3.3: the question text and the options of a block. *)
Definition segment (lines : list text) : M (text * list text) :=
  let! option_start_index := find_option_start lines in
  if negb (option_start_index =? -1)%Z
  then ret (strip (join [LF] (slice_to lines option_start_index)),
            slice lines option_start_index (option_start_index + 4))
  else ret (strip (join [LF] lines), []).

(** Lines 66-93: from the text of group 2 to question text and options. *)
Definition segment_body (group2 : text) : M (text * list text) :=
  let body := strip group2 in
  let lines := trimmed_lines body in
  segment lines.

(** The body of the loop of line 64. *)
Definition process_question (answer_map : gmap N text) (m : match_obj)
  : M QuizItem :=
  let! q_num := int (group m 1) in
  let! (question_text, opts) := segment_body (group m 2) in
  ret {| q_no := q_num;
         question := question_text;
         options := opts;
         answer_letter := default NOT_FOUND (answer_map !! q_num) |}.

Definition parse_quiz_content (doc_content : text) : M (list QuizItem) :=
  match doc_content with
  | [] => ret []
  | _ =>
      let! answer_map := extract_answers doc_content in
      for_each (process_question answer_map)
        (finditer QUESTION_REGEX doc_content)
  end.

(** ** Printed text

    What the script prints may hold code points above 255 (the banner does,
    and so can an upper-cased letter), so printed lines are lists of code
    points. *)

From Stdlib Require DecimalString DecimalPos DecimalN.

Definition utext := list N.

Definition up (s : text) : utext := map code s.

(** A string literal, as printed text. *)
Definition utxt (s : string) : utext := up (txt s).

(** The decimal digits of a non-negative integer. *)
Definition digits_of_N (n : N) : text :=
  txt (DecimalString.NilEmpty.string_of_uint (N.to_uint n)).

(** [str(n)] for a non-negative integer, which is also how an f-string
    formats it: the decimal digits, and a [ValueError] when there are more
    than [MAX_STR_DIGITS] of them. *)
Definition str_of_N (n : N) : outcome text :=
  if (length (digits_of_N n) <=? MAX_STR_DIGITS)%nat
  then Returned (digits_of_N n)
  else Raised ValueError.

(** [c * n] for a one-character string [c]. *)
Definition times (c : ascii) (n : nat) : text := replicate n c.

(** [s.lower()] on one character: A-Z and the capital letters of the range
    192-222 (all but the multiplication sign) move up by 32. *)
Definition lower_char (c : ascii) : ascii :=
  if in_range 65 90 c || in_range 192 214 c || in_range 216 222 c
  then ascii_of_N (code c + 32)
  else c.

Definition lower (s : text) : text := map lower_char s.

(** [s.upper()] on one character: a-z and the small letters of the range
    224-254 (all but the division sign) move down by 32; sharp s becomes SS;
    y with diaeresis and the micro sign leave the range. *)
Definition upper_char (c : ascii) : utext :=
  if in_range 97 122 c || in_range 224 246 c || in_range 248 254 c
  then [(code c - 32)%N]
  else if (code c =? 223)%N then [83%N; 83%N]
  else if (code c =? 255)%N then [376%N]
  else if (code c =? 181)%N then [924%N]
  else [code c].

Definition upper (s : text) : utext := concat (map upper_char s).

(** [a == b] on strings. *)
Fixpoint text_eqb (a b : text) : bool :=
  match a, b with
  | [], [] => true
  | x :: a', y :: b' => ascii_eqb x y && text_eqb a' b'
  | _, _ => false
  end.

(** [re.sub(r, repl, s)] for a replacement without group references: the
    text between the successive matches, with [repl] in place of each. *)
Fixpoint sub_from (repl : text) (prev_end : nat) (s : text)
    (ms : list match_obj) : text :=
  match ms with
  | [] => s
  | m :: ms' =>
      take (m_start m - prev_end) s ++ repl
      ++ sub_from repl (m_end m) (m_after m) ms'
  end.

Definition re_sub (r : regex) (repl s : text) : text :=
  sub_from repl 0 s (finditer r s).

(** ** [read_docx_to_string] *)

(** What [Document(file_path)] and the walk over its paragraphs deliver: the
    texts of the paragraphs, or an exception with its message. *)
Inductive docx_result :=
| DocxOpened (paragraph_texts : list text)
| DocxError (message : utext).

(** Lines 6-18: the printed lines and the returned string, [None] on an
    exception. *)
Definition read_docx_to_string (d : docx_result) : list utext * option text :=
  match d with
  | DocxOpened paragraph_texts =>
      let full_text := map strip paragraph_texts in
      ([], Some (join [LF; LF] full_text))
  | DocxError e => ([utxt "Error reading DOCX file: " ++ e], None)
  end.

(** ** [format_and_print_output] *)

(** The pattern of line 123:
    [^\s*([a-dA-D]{1}[\.\)]|\d{1}[\.\)])\s*] *)
Definition OPTION_CLEAN_PATTERN : regex :=
  Bol
  +> Repeat isspace 0 None true
  +> Group 1 (Or (Repeat (fun c => in_range 97 100 c || in_range 65 68 c)
                    1 (Some 1) true
                  +> Class (one_of (txt ".)")))
                 (Repeat isdecimal 1 (Some 1) true
                  +> Class (one_of (txt ".)"))))
  +> Repeat isspace 0 None true.

(** Line 123: [re.sub(..., '', option).strip()] *)
Definition clean_option (option : text) : text :=
  strip (re_sub OPTION_CLEAN_PATTERN [] option).

Definition option_letters : list text := [txt "A"; txt "B"; txt "C"; txt "D"].

(** Lines 120-124, from index [i] on: one line for each option whose index
    is below the number of letters. *)
Fixpoint option_lines (i : nat) (opts : list text) : list utext :=
  match opts with
  | [] => []
  | option :: opts' =>
      (if (i <? length option_letters)%nat
       then [utxt "  " ++ up (default [] (option_letters !! i))
             ++ utxt ". " ++ up (clean_option option)]
       else [])
      ++ option_lines (S i) opts'
  end.

(** Lines 126-130. *)
Definition answer_line (item : QuizItem) : utext :=
  let answer_display := lower (answer_letter item) in
  if negb (text_eqb answer_display (txt "n/a"))
  then [code LF] ++ utxt "Answer - " ++ up answer_display
       ++ utxt " (Option " ++ upper answer_display ++ utxt ")"
  else [code LF] ++ utxt "Answer - N/A (Missing in key)".

(** Lines 114-131: what the body of the loop prints for one item, once its
    number is formatted as [num]. *)
Definition item_lines (num : text) (item : QuizItem) : list utext :=
  [utxt "Q" ++ up num ++ utxt ". " ++ up (question item)]
  ++ [[code LF] ++ utxt "Options"]
  ++ option_lines 0 (options item)
  ++ [answer_line item]
  ++ [up (times "-" 40) ++ [code LF]].

(** Lines 114-131: the body of the loop.  The f-string of line 114 is
    evaluated before anything is printed for the item. *)
Definition format_item (item : QuizItem) : list utext * outcome unit :=
  match str_of_N (q_no item) with
  | Returned num => (item_lines num item, Returned tt)
  | Raised e => ([], Raised e)
  end.

(** Lines 113-131: the loop, which stops at the first exception. *)
Fixpoint format_items (structured_data : list QuizItem)
  : list utext * outcome unit :=
  match structured_data with
  | [] => ([], Returned tt)
  | item :: items =>
      match format_item item with
      | (out, Returned _) =>
          let '(out', r) := format_items items in (out ++ out', r)
      | (out, Raised e) => (out, Raised e)
      end
  end.

(** The title of the banner, with the three characters above 127 that the
    source file holds before the words. *)
Definition BANNER_TITLE : utext :=
  up (times " " 11) ++ [226%N; 339%N; 8230%N] ++ utxt " Extracted Quiz Data".

(** Lines 109-111. *)
Definition BANNER : list utext :=
  [[code LF] ++ up (times "=" 50)]
  ++ [BANNER_TITLE]
  ++ [up (times "=" 50) ++ [code LF]].

(** Lines 107-131: the lines printed for a list of items, and whether the
    function returns. *)
Definition format_and_print_output (structured_data : list QuizItem)
  : list utext * outcome unit :=
  let '(out, r) := format_items structured_data in (BANNER ++ out, r).

(** ** The script *)

Definition FILE_PATH : text := txt "test.docx".

(** Lines 134-143: everything the script prints, and whether it ends
    normally. *)
Definition main (d : docx_result) : list utext * outcome unit :=
  let reading := utxt "Reading content from: " ++ up FILE_PATH ++ utxt "..." in
  let '(read_out, document_text) := read_docx_to_string d in
  match document_text with
  | Some (c :: s) =>
      match parse_quiz_content (c :: s) with
      | (parse_out, Returned structured_data) =>
          let '(format_out, r) := format_and_print_output structured_data in
          ([reading] ++ read_out ++ map up parse_out ++ format_out, r)
      | (parse_out, Raised e) =>
          ([reading] ++ read_out ++ map up parse_out, Raised e)
      end
  | _ =>
      ([reading] ++ read_out
       ++ [utxt "Script terminated due to file reading error."],
       Returned tt)
  end.

(** * Specification vocabulary *)

(** ** Lines *)

Definition head_ok (s : text) : Prop :=
  match s with
  | c :: _ => isspace c = false
  | [] => True
  end.

(** No white space at either end. *)
Definition tight (s : text) : Prop := head_ok s /\ head_ok (rev s).

Definition no_linebreak (l : text) : Prop :=
  forallb (fun c => negb (islinebreak c)) l = true.

(** What every line of [trimmed_lines] satisfies. *)
Definition clean_line (l : text) : Prop :=
  (tight l /\ l <> []) /\ no_linebreak l.

(** ** Segmentation *)

(** Index of the first option line of a list of lines. *)
Fixpoint first_match (ls : list text) : option nat :=
  match ls with
  | [] => None
  | l :: ls' => if is_option_line l then Some 0 else S <$> first_match ls'
  end.

(** The index the script cuts at when there are four lines or more: the first
    option line among the last four, the fourth line from the end if none. *)
Definition split_point (lines : list text) : nat :=
  length lines - 4 + default 0 (first_match (drop (length lines - 4) lines)).

(** Question text and options of a block, from the text of group 2. *)
Definition segmented (group2 : text) : text * list text :=
  let lines := trimmed_lines (strip group2) in
  if (4 <=? length lines)%nat
  then (join [LF] (take (split_point lines) lines),
        drop (split_point lines) lines)
  else (join [LF] lines, []).

(** A body whose only option line comes before its last four lines. *)
Definition early_marker_body : text := txt "Pick one
a)
alpha one
beta two
gamma three
delta four".

(** ** The answer key *)

(** Length of the longest prefix of [s] made of characters of class [p]. *)
Fixpoint span_len (p : ascii -> bool) (s : text) : nat :=
  match s with
  | c :: s' => if p c then S (span_len p s') else 0
  | [] => 0
  end.

Definition head_in (p : ascii -> bool) (s : text) : Prop :=
  match s with
  | c :: _ => p c = true
  | [] => False
  end.

(** An answer-key entry at the very start of [s]: a run of digits, a dot and
    a letter from a to d.  Gives the digits, the letter and the text after. *)
Definition answer_entry_here (s : text) : option (text * ascii * text) :=
  let n := span_len isdecimal s in
  match n, drop n s with
  | S _, d :: c :: r =>
      if ascii_eqb d "." && in_range 97 100 c then Some (take n s, c, r)
      else None
  | _, _ => None
  end.

(** The entries of an answer-key section, left to right: at every offset
    where a whole number starts (no digit just before it) and is followed by
    a dot and a letter from a to d, the offset, the digits and the letter.
    [prev_digit] tells whether the character before [s] is a digit. *)
Fixpoint key_entries (prev_digit : bool) (at_pos : nat) (s : text)
  : list (nat * text * text) :=
  match s with
  | [] => []
  | ch :: s' =>
      (if prev_digit then []
       else match answer_entry_here s with
            | Some (D, c, _) => [(at_pos, D, [c])]
            | None => []
            end)
      ++ key_entries (isdecimal ch) (S at_pos) s'
  end.

(** The same, said without a scan: [t] reads [pre ++ D ++ "." ++ c ++ post]
    with [D] a whole number starting at offset [i]. *)
Definition entry_at (t : text) (i : nat) (D : text) (c : ascii) : Prop :=
  exists pre post,
    t = pre ++ D ++ "." :: c :: post
    /\ length pre = i
    /\ D <> [] /\ forallb isdecimal D = true
    /\ in_range 97 100 c = true
    /\ ~ head_in isdecimal (rev pre).

Definition entry_of (m : match_obj) : nat * text * text :=
  (m_start m, group m 1, group m 2).

(** The answer map built from a list of entries, later entries overwriting
    earlier ones. *)
Definition map_of_entries (es : list (nat * text * text)) : gmap N text :=
  fold_left (fun (am : gmap N text) e => <[int_digits e.1.2 := e.2]> am) es ∅.

(** Number of offsets of [s] at which [p] starts. *)
Fixpoint count_occurrences (p s : text) : nat :=
  match s with
  | [] => 0
  | _ :: s' => (if starts_with p s then 1 else 0) + count_occurrences p s'
  end.

(** The text after the first occurrence of [p], as [s.split(p, 1)] would
    give it: the reading of the specification, not what the script does. *)
Fixpoint after_first (p s : text) : option text :=
  match s with
  | [] => None
  | _ :: s' => if starts_with p s then Some (drop (length p) s)
               else after_first p s'
  end.

(** A blob with two answer-key headers. *)
Definition two_headers_blob : text :=
  txt "Type: Multiple choice question
Question 1 Pick
Answer key
1.a
Answer key
2.b".

(** ** Question blocks *)

(** The first offset of [s] at which [ok] holds of the text from there on. *)
Fixpoint first_offset (ok : text -> bool) (s : text) : option nat :=
  match s with
  | [] => if ok [] then Some 0 else None
  | _ :: s' => if ok s then Some 0 else S <$> first_offset ok s'
  end.

Definition SPACE : ascii := " ".

(** The tail of the question pattern, from the word Question on, and its
    last part, the body up to the lookahead. *)
Definition BODY_PART : regex :=
  Group 2 (Repeat space_or_not 0 None false)
  +> Lookahead (Or (Chars QUESTION_MARKER) (Or (Chars ANSWER_KEY) Eol)).

Definition QUESTION_TAIL : regex :=
  Chars (txt "Question ")
  +> Group 1 (Repeat isdecimal 1 None true)
  +> Chars (txt " ")
  +> BODY_PART.

(** "Question ", a run of digits and a space at the very start of [s]: the
    digits and the text after the space. *)
Definition token_here (s : text) : option (text * text) :=
  if starts_with (txt "Question ") s then
    let r1 := drop 9 s in
    let n := span_len isdecimal r1 in
    match drop n r1 with
    | sp :: r2 =>
        if negb (Nat.eqb n 0) && ascii_eqb sp SPACE
        then Some (take n r1, r2) else None
    | [] => None
    end
  else None.

Definition has_token (s : text) : bool :=
  match token_here s with
  | Some _ => true
  | None => false
  end.

(** Where a block body stops: at the start marker, at the answer-key header,
    or at the end of the input (a last newline left out). *)
Definition boundary_here (s : text) : bool :=
  starts_with QUESTION_MARKER s || starts_with ANSWER_KEY s || at_eol s.

(** A match of the question pattern at the very start of [s]: its length,
    the digits, the body and the text after the body. *)
Definition question_here (s : text) : option (nat * text * text * text) :=
  if starts_with QUESTION_MARKER s then
    let s1 := drop (length QUESTION_MARKER) s in
    match first_offset has_token s1 with
    | Some j =>
        match token_here (drop j s1) with
        | Some (D, r2) =>
            match first_offset boundary_here r2 with
            | Some e =>
                Some (length QUESTION_MARKER + j + 9 + length D + 1 + e,
                      D, take e r2, drop e r2)
            | None => None
            end
        | None => None
        end
    | None => None
    end
  else None.

(** The word Question, a space, a number and a space at the start of [s]. *)
Definition token_at (s : text) : Prop :=
  exists D r, s = txt "Question " ++ D ++ SPACE :: r
              /\ D <> [] /\ forallb isdecimal D = true.

(** The start marker at the start of [s], with a token somewhere after it. *)
Definition question_start (s : text) : Prop :=
  exists gap r, s = QUESTION_MARKER ++ gap ++ r /\ token_at r.

(** The blocks of a blob, left to right.  A block opens at the first
    occurrence of the start marker (the text [pre] before it holds none),
    provided a token follows somewhere; its number [D] is that of the first
    token after the marker ([gap] holds none); its body runs from the space
    after the number to the first boundary; the next block is looked for from
    that boundary on. *)
Inductive scan_blocks : text -> list (text * text) -> Prop :=
| scan_blocks_end s :
    (forall i, ~ question_start (drop i s)) ->
    scan_blocks s []
| scan_blocks_block pre gap D body after bs :
    (forall i, i < length pre ->
       starts_with QUESTION_MARKER
         (drop i (pre ++ QUESTION_MARKER ++ gap ++ txt "Question " ++ D
                  ++ SPACE :: body ++ after)) = false) ->
    (forall j, j < length gap ->
       ~ token_at (drop j (gap ++ txt "Question " ++ D
                           ++ SPACE :: body ++ after))) ->
    D <> [] -> forallb isdecimal D = true ->
    (forall e, e < length body ->
       boundary_here (drop e (body ++ after)) = false) ->
    boundary_here after = true ->
    scan_blocks after bs ->
    scan_blocks (pre ++ QUESTION_MARKER ++ gap ++ txt "Question " ++ D
                 ++ SPACE :: body ++ after)
      ((D, body) :: bs).

Definition block_of (m : match_obj) : text * text := (group m 1, group m 2).

(** The item of a block (digits and body) under an answer map. *)
Definition item_of (am : gmap N text) (b : text * text) : QuizItem :=
  {| q_no := int_digits b.1;
     question := (segmented b.2).1;
     options := (segmented b.2).2;
     answer_letter := default NOT_FOUND (am !! int_digits b.1) |}.

(** The start marker, the word Question and an integer, with a line break
    instead of a space after the integer. *)
Definition number_then_newline_blob : text :=
  txt "Type: Multiple choice question
Question 7
What now?".

(** Two start markers before one token. *)
Definition nested_markers_blob : text :=
  QUESTION_MARKER ++ txt " " ++ QUESTION_MARKER ++ txt " Question 1 x".

(** A start marker followed by the word Question and an integer, as the
    specification describes a block start: any text between the marker and
    the word, and no requirement on what follows the integer. *)
Definition described_start (s : text) : Prop :=
  exists gap D r,
    s = QUESTION_MARKER ++ gap ++ txt "Question " ++ D ++ r
    /\ D <> [] /\ forallb isdecimal D = true /\ ~ head_in isdecimal r.

(** ** Cleaning an option for display *)

(** The characters an option marker starts with, and those it ends with. *)
Definition marker_char (c : ascii) : bool :=
  in_range 97 100 c || in_range 65 68 c || isdecimal c.

Definition punct_char (c : ascii) : bool := one_of (txt ".)") c.

(** What [clean_option] comes to, said without a pattern: after the leading
    white space, a marker character and a dot or parenthesis are dropped,
    and the rest is stripped. *)
Definition strip_marker (option : text) : text :=
  match lstrip option with
  | c :: p :: rest =>
      if marker_char c && punct_char p then strip rest else strip option
  | _ => strip option
  end.

(** The printed line of the option [option] under the letter [letter]. *)
Definition option_line (letter option : text) : utext :=
  utxt "  " ++ up letter ++ utxt ". " ++ up (clean_option option).

(** The two answer lines. *)
Definition missing_line : utext :=
  [code LF] ++ utxt "Answer - N/A (Missing in key)".

Definition letter_line (c : ascii) : utext :=
  [code LF] ++ utxt "Answer - " ++ [code c]
  ++ utxt " (Option " ++ [(code c - 32)%N] ++ utxt ")".

(** The lines of the script that do not depend on the document. *)
Definition READING_LINE : utext :=
  utxt "Reading content from: " ++ up FILE_PATH ++ utxt "...".

Definition TERMINATED_LINE : utext :=
  utxt "Script terminated due to file reading error.".

(** ** Option lines *)

(** What [is_option_line] comes to on a line without white space at its
    ends: a marker character and a dot or parenthesis and nothing more, or
    three or four word characters and nothing more. *)
Definition short_option (line : text) : bool :=
  match line with
  | [c; p] => marker_char c && punct_char p
  | [_; _; _] | [_; _; _; _] => forallb isword line
  | _ => false
  end.

(** ** Printed numbers *)

Fixpoint drop_zeros (D : text) : text :=
  match D with
  | c :: D' => if ascii_eqb c "0" then drop_zeros D' else D
  | [] => []
  end.

(** The digits [D] without their leading zeros; a single zero when nothing
    else is left. *)
Definition canonical (D : text) : text :=
  match drop_zeros D with
  | [] => txt "0"
  | D' => D'
  end.


(** ** Numbers within the limit of the conversions *)

(** Every numeral of the list has at most [MAX_STR_DIGITS] digits. *)
Definition numbers_fit (Ds : list text) : bool :=
  forallb (fun D => (length D <=? MAX_STR_DIGITS)%nat) Ds.

(** The text the answers are read from: what follows the header when the
    header occurs exactly once, and nothing otherwise. *)
Definition key_text (blob : text) : text :=
  if Nat.eqb (count_occurrences ANSWER_KEY blob) 1
  then default [] (after_first ANSWER_KEY blob)
  else [].

(** The numerals of the entries of an answer-key section, left to right. *)
Definition entry_numbers (t : text) : list text :=
  map (fun e : nat * text * text => e.1.2) (key_entries false 0 t).

(** What the parse prints: the warning, unless the blob is empty or has
    exactly one header. *)
Definition header_warning (blob : text) : list text :=
  if nonempty blob && negb (Nat.eqb (count_occurrences ANSWER_KEY blob) 1)
  then [WARNING]
  else [].

(** A question whose number has one digit more than the conversions take. *)
Definition long_number_blob : text :=
  QUESTION_MARKER ++ txt " Question " ++ replicate 4301 "1" ++ txt " x".

(** The end-to-end scenario, with and without its answer key. *)
Definition sky_blob : text :=
  txt "Type: Multiple choice question
Question 1 What color is the sky?
A) Blue
B) Red
C) Green
D) Yellow
Answer key
1.a".

Definition headerless_blob : text :=
  txt "Type: Multiple choice question
Question 1 What color is the sky?
A) Blue
B) Red
C) Green
D) Yellow".

Definition sky_item (letter : text) : QuizItem :=
  {| q_no := 1;
     question := txt "What color is the sky?";
     options := [txt "A) Blue"; txt "B) Red"; txt "C) Green";
                 txt "D) Yellow"];
     answer_letter := letter |}.

(** ** The option pattern as the specification words it *)

(** A letter from a to d (either case) or a digit followed by a dot or a
    closing parenthesis, or a bare token of three or four characters that
    are not white space. *)
Definition described_option_line (line : text) : bool :=
  match line with
  | [c; p] => marker_char c && punct_char p
  | [_; _; _] | [_; _; _; _] => forallb (fun c => negb (isspace c)) line
  | _ => false
  end.

(** A body whose last four lines are bare tokens, the first of them with a
    character that is no word character. *)
Definition bare_tokens_body : text := txt "Is it allowed?
N/A
Yes
Nope
Both".

(** * Properties *)

Lemma app_eq_app_le {A} (l1 l2 l3 l4 : list A) :
  l1 ++ l2 = l3 ++ l4 -> length l1 <= length l3 ->
  exists l, l3 = l1 ++ l /\ l2 = l ++ l4.
Proof.
  revert l3. induction l1 as [|a l1 IH]; intros l3 H Hlen.
  - exists l3. by simpl in H.
  - destruct l3 as [|b l3]; [simpl in Hlen; lia|].
    simpl in H, Hlen. injection H as <- H.
    destruct (IH l3 H ltac:(lia)) as (l & -> & ->). by exists l.
Qed.

(** ** Stripping *)

Lemma lstrip_head_ok s : head_ok (lstrip s).
Proof.
  induction s as [|c s IH]; simpl; [done|].
  destruct (isspace c) eqn:E; [done|]. simpl. done.
Qed.

Lemma head_ok_lstrip s : head_ok s -> lstrip s = s.
Proof. destruct s as [|c s]; simpl; [done|]. by intros ->. Qed.

Lemma lstrip_snoc_keep s c :
  isspace c = false -> exists y, lstrip (s ++ [c]) = y ++ [c].
Proof.
  intros Hc. induction s as [|a s [y IH]]; simpl.
  - rewrite Hc. by exists [].
  - destruct (isspace a).
    + by exists y.
    + by exists (a :: s).
Qed.

Lemma strip_tight s : tight (strip s).
Proof.
  unfold tight, strip, rstrip. rewrite rev_involutive. split.
  - pose proof (lstrip_head_ok s) as H.
    destruct (lstrip s) as [|c u]; [done|]. simpl in H.
    change (rev (c :: u)) with (rev u ++ [c]).
    destruct (lstrip_snoc_keep (rev u) c H) as [y ->].
    rewrite rev_app_distr. simpl. done.
  - apply lstrip_head_ok.
Qed.

Lemma tight_strip s : tight s -> strip s = s.
Proof.
  intros [H1 H2]. unfold strip, rstrip.
  rewrite (head_ok_lstrip s H1), (head_ok_lstrip (rev s) H2).
  apply rev_involutive.
Qed.

Lemma head_ok_app s t : s <> [] -> head_ok s -> head_ok (s ++ t).
Proof. destruct s; [done|]. simpl. done. Qed.

Lemma join_cons sep p ps :
  ps <> [] -> join sep (p :: ps) = p ++ sep ++ join sep ps.
Proof. destruct ps; [done|]. done. Qed.

Lemma join_snoc sep ps p :
  ps <> [] -> join sep (ps ++ [p]) = join sep ps ++ sep ++ p.
Proof.
  induction ps as [|a ps IH]; [done|]. intros _.
  destruct ps as [|b ps].
  - done.
  - change ((a :: b :: ps) ++ [p]) with (a :: ((b :: ps) ++ [p])).
    rewrite join_cons by done. rewrite IH by done.
    rewrite (join_cons sep a (b :: ps)) by done.
    by rewrite <- !app_assoc.
Qed.

Lemma join_tight sep ls :
  Forall (fun l => tight l /\ l <> []) ls -> tight (join sep ls).
Proof.
  intros H. split.
  - destruct H as [|l ls [[Hl _] Hne] H]; [done|].
    destruct ls as [|l' ls]; [done|].
    rewrite join_cons by done. by apply head_ok_app.
  - destruct ls as [|l ls' _] using rev_ind; [done|].
    apply Forall_app in H as [_ H].
    apply Forall_singleton in H as [[_ Hl] Hne].
    destruct ls' as [|a ls']; [done|].
    rewrite join_snoc by done. rewrite !rev_app_distr, <- app_assoc.
    apply head_ok_app; [|done].
    intros E. apply (f_equal (@rev ascii)) in E.
    rewrite rev_involutive in E. done.
Qed.

Lemma trimmed_lines_tight body :
  Forall (fun l => tight l /\ l <> []) (trimmed_lines body).
Proof.
  unfold trimmed_lines. apply Forall_forall. intros l Hl.
  apply list_elem_of_In, in_map_iff in Hl as (x & <- & Hx).
  apply filter_In in Hx as [_ Hx]. split; [apply strip_tight|].
  by destruct (strip x).
Qed.

Lemma strip_join_lines (ls : list text) :
  Forall (fun l => tight l /\ l <> []) ls ->
  strip (join [LF] ls) = join [LF] ls.
Proof. intros H. by apply tight_strip, join_tight. Qed.

(** ** The monad *)

Lemma bind_ret_l {A B} (v : A) (f : A -> M B) : bind (ret v) f = f v.
Proof. unfold bind, ret. by destruct (f v). Qed.

Lemma bind_returned {A B} out (v : A) (f : A -> M B) :
  bind (out, Returned v) f = (out ++ (f v).1, (f v).2).
Proof. unfold bind. by destruct (f v). Qed.

(** ** Slices and indices *)

Lemma clamp_index_nat n i : i <= n -> clamp_index n (Z.of_nat i) = i.
Proof.
  intros H. unfold clamp_index.
  destruct (Z.ltb_spec (Z.of_nat i) 0); lia.
Qed.

Lemma clamp_index_over n i : n <= i -> clamp_index n (Z.of_nat i) = n.
Proof.
  intros H. unfold clamp_index.
  destruct (Z.ltb_spec (Z.of_nat i) 0); lia.
Qed.

Lemma slice_to_nat {A} (l : list A) i :
  i <= length l -> slice_to l (Z.of_nat i) = take i l.
Proof. intros H. unfold slice_to. by rewrite clamp_index_nat. Qed.

Lemma slice_tail {A} (l : list A) i k :
  i <= length l -> length l <= i + k ->
  slice l (Z.of_nat i) (Z.of_nat i + Z.of_nat k) = drop i l.
Proof.
  intros H1 H2. unfold slice. rewrite clamp_index_nat by done.
  rewrite <- Nat2Z.inj_add, clamp_index_over by done.
  apply take_ge. rewrite length_drop. lia.
Qed.

Lemma getitem_nat {A} (l : list A) i x :
  l !! i = Some x -> getitem l (Z.of_nat i) = ret x.
Proof.
  intros H. unfold getitem.
  destruct (Z.ltb_spec (Z.of_nat i) 0) as [|_]; [lia|].
  destruct (Z.ltb_spec (Z.of_nat i) 0) as [|_]; [lia|].
  by rewrite Nat2Z.id, H.
Qed.

Lemma range_shift a b n :
  map (fun k => (Z.of_nat a + Z.of_nat k)%Z) (seq b n)
  = map Z.of_nat (seq (a + b) n).
Proof.
  revert b. induction n as [|n IH]; intros b; simpl; [done|].
  rewrite IH. f_equal; [lia|]. by rewrite Nat.add_succ_r.
Qed.

Lemma range_nat a n :
  range (Z.of_nat a) (Z.of_nat (a + n)) = map Z.of_nat (seq a n).
Proof.
  unfold range. replace (Z.to_nat _) with n by lia.
  rewrite range_shift. by rewrite Nat.add_0_r.
Qed.

(** ** Segmentation *)

(** The option pattern takes a whole line: a bare marker or a short code. *)
Example option_line_marker : is_option_line (txt "a)") = true.
Proof. done. Qed.

Example option_line_code : is_option_line (txt "Ghk") = true.
Proof. done. Qed.

Example option_line_with_text : is_option_line (txt "A) Blue") = false.
Proof. done. Qed.

Lemma first_match_Some ls j :
  first_match ls = Some j ->
  j < length ls
  /\ (exists l, ls !! j = Some l /\ is_option_line l = true)
  /\ Forall (fun l => is_option_line l = false) (take j ls).
Proof.
  revert j. induction ls as [|l ls IH]; intros j; simpl; [done|].
  destruct (is_option_line l) eqn:E.
  - intros [= <-]. simpl. split; [lia|]. split; [by exists l|constructor].
  - destruct (first_match ls) as [j'|]; [|done]. intros [= <-].
    destruct (IH j' eq_refl) as (H1 & H2 & H3). simpl.
    split; [lia|]. split; [done|]. by constructor.
Qed.

Lemma first_match_None ls :
  first_match ls = None <-> Forall (fun l => is_option_line l = false) ls.
Proof.
  induction ls as [|l ls IH]; simpl; [done|].
  destruct (is_option_line l) eqn:E.
  - split; [done|]. intros H. apply Forall_cons in H as [H _]. congruence.
  - destruct (first_match ls); simpl.
    + split; [done|]. intros H. apply Forall_cons in H as [_ H].
      by apply IH in H.
    + split; [|done]. intros _. constructor; [done|]. by apply IH.
Qed.

Lemma first_match_head l ls :
  is_option_line l = true -> first_match (l :: ls) = Some 0.
Proof. simpl. by intros ->. Qed.

Lemma scan_window_seq lines a n :
  a + n <= length lines ->
  scan_window (map Z.of_nat (seq a n)) lines
  = ret (match first_match (take n (drop a lines)) with
         | Some j => Z.of_nat (a + j)
         | None => (-1)%Z
         end).
Proof.
  revert a. induction n as [|n IH]; intros a Ha; [done|].
  destruct (lookup_lt_is_Some_2 lines a) as [x Hx]; [lia|].
  cbn [seq map scan_window]. rewrite (getitem_nat _ _ _ Hx), bind_ret_l.
  rewrite (drop_S _ _ _ Hx). cbn [take first_match].
  destruct (is_option_line x).
  - by rewrite Nat.add_0_r.
  - rewrite IH by lia. destruct (first_match _); simpl; [|done].
    by rewrite Nat.add_succ_r.
Qed.

Lemma split_point_bounds lines :
  4 <= length lines ->
  length lines - 4 <= split_point lines < length lines.
Proof.
  intros H. unfold split_point.
  destruct (first_match _) as [j|] eqn:E; simpl; [|lia].
  apply first_match_Some in E as (E & _). rewrite length_drop in E. lia.
Qed.

Lemma find_option_start_ge4 lines :
  4 <= length lines ->
  find_option_start lines = ret (Z.of_nat (split_point lines)).
Proof.
  intros H. unfold find_option_start, len.
  destruct (Z.leb_spec 4 (Z.of_nat (length lines))) as [_|]; [|lia].
  assert (range (Z.of_nat (length lines) - 4) (Z.of_nat (length lines))
          = map Z.of_nat (seq (length lines - 4) 4)) as ->.
  { rewrite <- range_nat. f_equal; lia. }
  rewrite scan_window_seq by lia. rewrite bind_ret_l.
  rewrite take_ge by (rewrite length_drop; lia).
  unfold split_point. destruct (first_match _) as [j|]; simpl.
  - destruct (Z.eqb_spec (Z.of_nat (length lines - 4 + j)) (-1)); [lia|done].
  - simpl. rewrite Nat.add_0_r. f_equal. lia.
Qed.

Lemma find_option_start_lt4 lines :
  length lines < 4 -> find_option_start lines = ret (-1)%Z.
Proof.
  intros H. unfold find_option_start, len.
  destruct (Z.leb_spec 4 (Z.of_nat (length lines))) as [|_]; [lia|].
  rewrite bind_ret_l. by rewrite andb_false_r.
Qed.

Lemma segment_ge4 lines :
  4 <= length lines ->
  segment lines
  = ret (strip (join [LF] (take (split_point lines) lines)),
         drop (split_point lines) lines).
Proof.
  intros H. pose proof (split_point_bounds lines H) as Hb.
  unfold segment. rewrite find_option_start_ge4, bind_ret_l by done.
  destruct (Z.eqb_spec (Z.of_nat (split_point lines)) (-1)); [lia|]. simpl.
  rewrite slice_to_nat by lia. change 4%Z with (Z.of_nat 4).
  by rewrite slice_tail by lia.
Qed.

Lemma segment_lt4 lines :
  length lines < 4 -> segment lines = ret (strip (join [LF] lines), []).
Proof.
  intros H. unfold segment.
  by rewrite find_option_start_lt4, bind_ret_l by done.
Qed.

(** The cut only depends on the last four lines. *)
Lemma split_point_window pre w :
  length w = 4 ->
  split_point (pre ++ w) = length pre + default 0 (first_match w).
Proof.
  intros Hw. unfold split_point. rewrite length_app, Hw.
  replace (length pre + 4 - 4) with (length pre) by lia.
  by rewrite drop_app_length.
Qed.

Lemma segment_window pre w :
  length w = 4 ->
  Forall (fun l => tight l /\ l <> []) (pre ++ w) ->
  let j := default 0 (first_match w) in
  segment (pre ++ w) = ret (join [LF] (pre ++ take j w), drop j w).
Proof.
  intros Hw Ht j. rewrite segment_ge4 by (rewrite length_app; lia).
  rewrite split_point_window by done. fold j.
  rewrite take_app_add', drop_app_add' by done.
  rewrite strip_join_lines; [done|].
  apply Forall_app in Ht as [Hp Ht]. apply Forall_app. split; [done|].
  by apply Forall_take.
Qed.

(** ** Lines survive a join *)

Lemma no_linebreak_app l1 l2 :
  no_linebreak (l1 ++ l2) <-> no_linebreak l1 /\ no_linebreak l2.
Proof. unfold no_linebreak. rewrite forallb_app. apply andb_true_iff. Qed.

Lemma no_linebreak_rev l : no_linebreak l -> no_linebreak (rev l).
Proof.
  induction l as [|c l IH]; [done|]. intros H.
  change (c :: l) with ([c] ++ l) in H.
  apply no_linebreak_app in H as [H1 H2]. simpl.
  apply no_linebreak_app. auto.
Qed.

Lemma no_linebreak_lstrip l : no_linebreak l -> no_linebreak (lstrip l).
Proof.
  induction l as [|c l IH]; [done|]. intros H. simpl.
  destruct (isspace c); [|done]. apply IH.
  unfold no_linebreak in *. simpl in H. by apply andb_true_iff in H as [_ H].
Qed.

Lemma no_linebreak_strip l : no_linebreak l -> no_linebreak (strip l).
Proof.
  intros H. unfold strip, rstrip.
  by apply no_linebreak_rev, no_linebreak_lstrip, no_linebreak_rev,
    no_linebreak_lstrip.
Qed.

Lemma splitlines_from_no_linebreak after_cr cur s :
  no_linebreak cur ->
  Forall no_linebreak (splitlines_from after_cr cur s).
Proof.
  revert after_cr cur. induction s as [|c s IH]; intros after_cr cur Hcur.
  - simpl. destruct cur; [constructor|].
    constructor; [|constructor]. by apply no_linebreak_rev.
  - simpl. destruct (after_cr && ascii_eqb c LF); [by apply IH|].
    destruct (islinebreak c) eqn:E.
    + constructor; [by apply no_linebreak_rev|]. by apply IH.
    + apply IH. unfold no_linebreak in *. simpl. by rewrite E, Hcur.
Qed.

Lemma splitlines_from_app cur l s :
  no_linebreak l ->
  splitlines_from false cur (l ++ s) = splitlines_from false (rev l ++ cur) s.
Proof.
  revert cur. induction l as [|c l IH]; intros cur H; [done|].
  unfold no_linebreak in H. simpl in H. apply andb_true_iff in H as [Hc H].
  apply negb_true_iff in Hc. simpl. rewrite Hc, IH by done.
  by rewrite <- app_assoc.
Qed.

Lemma splitlines_from_LF cur s :
  splitlines_from false cur (LF :: s) = rev cur :: splitlines_from false [] s.
Proof. done. Qed.

Lemma splitlines_join (ls : list text) :
  Forall (fun l => no_linebreak l /\ l <> []) ls ->
  splitlines (join [LF] ls) = ls.
Proof.
  unfold splitlines. induction 1 as [|l ls [Hl Hne] H IH]; [done|].
  destruct ls as [|l' ls].
  - simpl. rewrite <- (app_nil_r l) at 1.
    rewrite splitlines_from_app by done. simpl. rewrite app_nil_r.
    destruct (rev l) eqn:E; [|by rewrite <- E, rev_involutive].
    apply (f_equal (@rev ascii)) in E. rewrite rev_involutive in E. done.
  - rewrite join_cons by done. rewrite splitlines_from_app by done.
    change ([LF] ++ ?x) with (LF :: x). rewrite splitlines_from_LF.
    by rewrite app_nil_r, rev_involutive, IH.
Qed.

Lemma trimmed_lines_clean body : Forall clean_line (trimmed_lines body).
Proof.
  apply Forall_and. split; [apply trimmed_lines_tight|].
  unfold trimmed_lines. apply Forall_forall. intros l Hl.
  apply list_elem_of_In, in_map_iff in Hl as (x & <- & Hx).
  apply filter_In in Hx as [Hx _]. apply no_linebreak_strip.
  pose proof (splitlines_from_no_linebreak false [] body eq_refl) as H.
  rewrite Forall_forall in H. by apply H, list_elem_of_In.
Qed.

Lemma trimmed_lines_join (ls : list text) :
  Forall clean_line ls -> trimmed_lines (join [LF] ls) = ls.
Proof.
  intros H. apply Forall_and in H as [Ht Hn]. unfold trimmed_lines.
  rewrite splitlines_join.
  - induction Ht as [|l ls [Hl Hne] Ht IH]; [done|]. cbn [List.filter].
    rewrite (tight_strip l Hl). destruct l as [|c l]; [done|].
    cbn [nonempty map]. rewrite (tight_strip _ Hl).
    f_equal. apply IH. by apply Forall_cons in Hn as [_ Hn].
  - apply Forall_and. split; [done|]. eapply Forall_impl; [exact Ht|].
    by intros l [_ Hl].
Qed.

(** ** From a segmented body to the item *)

Lemma process_question_segment am m n q opts :
  int (group m 1) = ret n ->
  segment_body (group m 2) = ret (q, opts) ->
  process_question am m
  = ret {| q_no := n; question := q; options := opts;
           answer_letter := default NOT_FOUND (am !! n) |}.
Proof.
  intros Hn Hs. unfold process_question.
  by rewrite Hn, bind_ret_l, Hs, bind_ret_l.
Qed.

(** ** The matcher *)

Lemma span_len_le p s : span_len p s <= length s.
Proof. induction s as [|c s IH]; simpl; [lia|]. destruct (p c); simpl; lia. Qed.

Lemma span_len_take p s : forallb p (take (span_len p s) s) = true.
Proof.
  induction s as [|c s IH]; simpl; [done|].
  destruct (p c) eqn:E; simpl; [|done]. by rewrite E, IH.
Qed.

Lemma span_len_app p D r :
  forallb p D = true -> ~ head_in p r ->
  span_len p (D ++ r) = length D.
Proof.
  intros HD Hr. induction D as [|d D IH]; simpl in *.
  - destruct r as [|c r]; [done|]. simpl in *.
    destruct (p c); [exfalso; by apply Hr|done].
  - apply andb_true_iff in HD as [-> HD]. by rewrite IH.
Qed.

(** Repetitions, for any type of result of the continuation. *)
Section Repetitions.

Context {A : Type}.

Lemma or_else_None_l (b : option A) : or_else None b = b.
Proof. done. Qed.

Lemma or_else_None_r (a : option A) : or_else a None = a.
Proof. by destruct a. Qed.

(** A greedy repetition whose continuation cannot start on a character of the
    class takes the whole run or fails. *)
Lemma repeat_greedy_max p lo at_pos gs s (k : mstate -> option A) :
  (forall st, head_in p (rest st) -> k st = None) ->
  repeat_class p true lo None at_pos gs s k
  = if (lo <=? span_len p s)%nat
    then k (MState (at_pos + span_len p s) (drop (span_len p s) s) gs)
    else None.
Proof.
  intros Hk. revert lo at_pos.
  induction s as [|c s IH]; intros lo at_pos.
  - simpl. rewrite Nat.add_0_r. by destruct lo.
  - cbn [repeat_class span_len]. destruct (p c) eqn:E.
    + cbn [no_more negb andb fmap option_fmap option_map]. rewrite IH.
      replace (S at_pos + span_len p s) with (at_pos + S (span_len p s))
        by lia.
      cbn [drop].
      assert ((Nat.pred lo <=? span_len p s)%nat
              = (lo <=? S (span_len p s))%nat)
        as -> by (destruct lo; simpl; [by destruct (span_len p s)|done]).
      destruct (lo <=? S (span_len p s))%nat eqn:El; [|by destruct lo].
      destruct (k (MState (at_pos + S (span_len p s)) _ gs)) eqn:Ek;
        [done|].
      simpl. destruct lo; [|done]. apply Hk. simpl. done.
    + simpl. rewrite Nat.add_0_r. by destruct lo.
Qed.

Lemma space_or_not_true c : space_or_not c = true.
Proof. unfold space_or_not. by destruct (isspace c). Qed.

(** A lazy [[\s\S]*?] tries its continuation at each offset in turn. *)
Lemma repeat_lazy_any at_pos gs s (k : mstate -> option A) :
  repeat_class space_or_not false 0 None at_pos gs s k
  = or_else (k (MState at_pos s gs))
      match s with
      | _ :: s' => repeat_class space_or_not false 0 None (S at_pos) gs s' k
      | [] => None
      end.
Proof. destruct s as [|c s]; simpl; [done|]. by rewrite space_or_not_true. Qed.

End Repetitions.

Lemma starts_with_spec p s : starts_with p s = true <-> exists r, s = p ++ r.
Proof.
  revert s. induction p as [|a p IH]; intros s; simpl.
  - split; [by exists s|done].
  - destruct s as [|b s]; [split; [done|by intros [r Hr]]|].
    unfold ascii_eqb. rewrite andb_true_iff, Ascii.eqb_eq, IH. split.
    + intros [-> [r ->]]. by exists r.
    + intros [r [= -> ->]]. eauto.
Qed.

Lemma starts_with_app p r : starts_with p (p ++ r) = true.
Proof. apply starts_with_spec. by exists r. Qed.

(** ** The answer pattern *)

Lemma isdecimal_not_dot c : isdecimal c = true -> ascii_eqb "." c = false.
Proof.
  intros H. unfold ascii_eqb. apply Ascii.eqb_neq. intros <-. done.
Qed.

Lemma attempt_answer ma start s :
  attempt ANSWER_REGEX ma start s
  = match answer_entry_here s with
    | Some (D, c, r) =>
        Some (Match start (start + length D + 2) [(2, [c]); (1, D)] r)
    | None => None
    end.
Proof.
  unfold attempt, ANSWER_REGEX. cbn [run pos rest groups].
  rewrite repeat_greedy_max.
  2:{ intros st Hst. cbn [pos rest groups txt list_ascii_of_string starts_with].
      destruct (rest st) as [|c r]; [done|]. simpl in Hst.
      by rewrite (isdecimal_not_dot c Hst). }
  unfold answer_entry_here. pose proof (span_len_le isdecimal s) as Hle.
  destruct (span_len isdecimal s) as [|n] eqn:En; [done|].
  cbn [Nat.leb pos rest groups txt list_ascii_of_string starts_with length].
  destruct (drop (S n) s) as [|d [|c r]] eqn:Ed.
  - done.
  - cbn [starts_with]. unfold ascii_eqb. rewrite Ascii.eqb_sym.
    fold (ascii_eqb d "."). by destruct (ascii_eqb d ".").
  - cbn [starts_with]. unfold ascii_eqb. rewrite Ascii.eqb_sym.
    fold (ascii_eqb d "."). rewrite andb_true_r.
    destruct (ascii_eqb d "."); [|done]. cbn [drop andb].
    destruct (in_range 97 100 c); [|done].
    replace (S (start + S n + 1) - (start + S n + 1)) with 1 by lia.
    replace (start + S n - start) with (S n) by lia. cbn [take pos].
    assert (Nat.eqb (S (start + S n + 1)) start = false) as ->
      by (apply Nat.eqb_neq; lia).
    rewrite andb_false_r. rewrite length_take.
    do 2 f_equal; lia.
Qed.

Lemma answer_entry_here_Some s D c r :
  answer_entry_here s = Some (D, c, r)
  <-> s = D ++ "." :: c :: r /\ D <> [] /\ forallb isdecimal D = true
      /\ in_range 97 100 c = true.
Proof.
  unfold answer_entry_here. split.
  - pose proof (span_len_le isdecimal s) as Hle.
    pose proof (span_len_take isdecimal s) as Hd.
    pose proof (take_drop (span_len isdecimal s) s) as Hs.
    destruct (span_len isdecimal s) as [|n] eqn:En; [done|].
    destruct (drop (S n) s) as [|d [|c' r']] eqn:Ed; [done|done|].
    destruct (ascii_eqb d ".") eqn:E1; [|done].
    destruct (in_range 97 100 c') eqn:E2; [|done].
    intros [= <- <- <-]. apply Ascii.eqb_eq in E1 as ->.
    split; [done|]. split; [|done].
    intros E. apply (f_equal length) in E. rewrite length_take in E.
    cbn [length] in E. lia.
  - intros (-> & Hne & Hd & Hc). cbv zeta.
    rewrite span_len_app by done.
    destruct (length D) as [|n0] eqn:El; [by destruct D|]. rewrite <- El.
    rewrite drop_app_length, take_app_length. simpl. by rewrite Hc.
Qed.

Lemma answer_entry_here_digit ch s D c r :
  isdecimal ch = true ->
  answer_entry_here s = Some (D, c, r) ->
  answer_entry_here (ch :: s) = Some (ch :: D, c, r).
Proof.
  intros Hch H. apply answer_entry_here_Some in H as (-> & Hne & Hd & Hc).
  apply answer_entry_here_Some. simpl. by rewrite Hch, Hd.
Qed.

Lemma answer_entry_here_head ch s D c r :
  answer_entry_here (ch :: s) = Some (D, c, r) ->
  isdecimal ch = true
  /\ exists D', D = ch :: D' /\ s = D' ++ "." :: c :: r
                /\ forallb isdecimal D' = true.
Proof.
  intros H. apply answer_entry_here_Some in H as (Hs & Hne & Hd & Hc).
  destruct D as [|d D']; [done|]. simpl in Hs. injection Hs as <- ->.
  simpl in Hd. apply andb_true_iff in Hd as [Hd1 Hd2]. eauto.
Qed.

Lemma letter_not_digit c : in_range 97 100 c = true -> isdecimal c = false.
Proof.
  unfold isdecimal, in_range. rewrite !andb_true_iff, andb_false_iff.
  rewrite !N.leb_le, !N.leb_gt. lia.
Qed.

Lemma answer_entry_here_nondigit ch s :
  isdecimal ch = false -> answer_entry_here (ch :: s) = None.
Proof. intros H. unfold answer_entry_here. simpl. by rewrite H. Qed.

Lemma key_entries_inside D c r p :
  forallb isdecimal D = true -> in_range 97 100 c = true ->
  key_entries true p (D ++ "." :: c :: r)
  = key_entries false (p + length D + 2) r.
Proof.
  intros HD Hc. revert p. induction D as [|d D IH]; intros p.
  - cbn [app key_entries]. rewrite (answer_entry_here_nondigit c r)
      by by apply letter_not_digit.
    rewrite (letter_not_digit c Hc). simpl. f_equal. lia.
  - simpl in HD. apply andb_true_iff in HD as [Hd HD].
    cbn [app key_entries]. rewrite Hd, IH by done. simpl. f_equal. lia.
Qed.

Lemma key_entries_prev b p s :
  answer_entry_here s = None -> key_entries b p s = key_entries false p s.
Proof.
  intros H. destruct s as [|ch s]; [done|]. simpl. rewrite H. by destruct b.
Qed.

Lemma finditer_answer_bounded n :
  forall s, length s <= n ->
  forall fuel start, length s < fuel ->
  map entry_of (finditer_from fuel ANSWER_REGEX false start s)
  = key_entries false start s.
Proof.
  induction n as [|n IH]; intros s Hn fuel start Hf.
  - destruct s; [|simpl in Hn; lia]. destruct fuel; [lia|]. done.
  - destruct s as [|ch s]; [destruct fuel; [lia|done]|].
    destruct fuel as [|fuel]; [lia|]. simpl in Hn, Hf.
    cbn [finditer_from search_from]. rewrite attempt_answer.
    cbn [key_entries].
    destruct (answer_entry_here (ch :: s)) as [[[D c] r]|] eqn:E.
    + destruct (answer_entry_here_head _ _ _ _ _ E)
        as (Hch & D' & -> & -> & HD').
      apply answer_entry_here_Some in E as (_ & _ & _ & Hc).
      cbn [map m_end m_start m_after entry_of group m_groups assoc Nat.eqb
           default]. simpl length.
      assert (Nat.eqb (start + S (length D') + 2) start = false) as ->
        by (apply Nat.eqb_neq; lia).
      rewrite length_app in Hn, Hf. simpl in Hn, Hf.
      fold (entry_of). rewrite IH by lia.
      rewrite Hch, key_entries_inside by done. simpl. do 2 f_equal. lia.
    + specialize (IH s ltac:(lia) (S fuel) (S start) ltac:(lia)).
      cbn [finditer_from] in IH. rewrite IH. simpl app.
      destruct (isdecimal ch) eqn:Hch; [|done].
      symmetry. apply key_entries_prev.
      destruct (answer_entry_here s) as [[[D c] r]|] eqn:E'; [|done].
      by rewrite (answer_entry_here_digit ch s D c r Hch E') in E.
Qed.

(** The matches of the answer pattern are the entries of the section. *)
Lemma finditer_answer s :
  map entry_of (finditer ANSWER_REGEX s) = key_entries false 0 s.
Proof.
  unfold finditer. apply (finditer_answer_bounded (length s)); lia.
Qed.

Lemma head_in_rev_cons p ch (pre : text) :
  head_in p (rev (ch :: pre))
  <-> match pre with
      | [] => p ch = true
      | _ :: _ => head_in p (rev pre)
      end.
Proof.
  destruct pre as [|a pre] using rev_ind; [done|].
  change (ch :: pre ++ [a]) with ((ch :: pre) ++ [a]).
  rewrite !rev_app_distr. simpl. by destruct pre.
Qed.

(** What [key_entries] lists, said without a scan. *)
Lemma key_entries_spec b p s i D c :
  (i, D, [c]) ∈ key_entries b p s
  <-> exists pre post,
        s = pre ++ D ++ "." :: c :: post
        /\ i = p + length pre
        /\ D <> [] /\ forallb isdecimal D = true
        /\ in_range 97 100 c = true
        /\ match pre with
           | [] => b = false
           | _ :: _ => ~ head_in isdecimal (rev pre)
           end.
Proof.
  revert b p. induction s as [|ch s IH]; intros b p.
  - simpl. split; [by intros ?%elem_of_nil|].
    intros (pre & post & E & _ & Hne & _). destruct pre, D; done.
  - cbn [key_entries]. rewrite elem_of_app, IH. split.
    + intros [H|(pre & post & -> & -> & Hne & HD & Hc & Hp)].
      * destruct b; [by apply elem_of_nil in H|].
        destruct (answer_entry_here (ch :: s)) as [[[D0 c0] r]|] eqn:E;
          [|by apply elem_of_nil in H].
        apply list_elem_of_singleton in H as [= -> -> ->].
        apply answer_entry_here_Some in E as (E & Hne & HD & Hc).
        exists [], r. rewrite Nat.add_0_r. done.
      * exists (ch :: pre), post. split; [done|]. split; [simpl; lia|].
        do 3 (split; [done|]). rewrite head_in_rev_cons.
        destruct pre; [by rewrite Hp|done].
    + intros (pre & post & E & -> & Hne & HD & Hc & Hp).
      destruct pre as [|a pre].
      * left. subst b. simpl in E.
        assert (answer_entry_here (ch :: s) = Some (D, c, post)) as ->
          by (apply answer_entry_here_Some; rewrite E; done).
        rewrite Nat.add_0_r. by apply list_elem_of_singleton.
      * right. simpl in E. injection E as <- ->.
        exists pre, post. split; [done|]. split; [simpl; lia|].
        do 3 (split; [done|]). rewrite head_in_rev_cons in Hp.
        destruct pre; [|done]. by destruct (isdecimal ch).
Qed.

Lemma key_entries_entry_at t i D c :
  (i, D, [c]) ∈ key_entries false 0 t <-> entry_at t i D c.
Proof.
  rewrite key_entries_spec. unfold entry_at. split.
  - intros (pre & post & -> & -> & Hne & HD & Hc & Hp).
    exists pre, post. do 5 (split; [done|]).
    destruct pre; [simpl; tauto|done].
  - intros (pre & post & -> & <- & Hne & HD & Hc & Hp).
    exists pre, post. do 5 (split; [done|]). by destruct pre.
Qed.

Lemma key_entries_shape b p s e :
  e ∈ key_entries b p s ->
  exists i D c, e = (i, D, [c]) /\ D <> [] /\ forallb isdecimal D = true.
Proof.
  revert b p. induction s as [|ch s IH]; intros b p; simpl.
  - by intros ?%elem_of_nil.
  - rewrite elem_of_app. intros [H|H]; [|by eapply IH].
    destruct b; [by apply elem_of_nil in H|].
    destruct (answer_entry_here (ch :: s)) as [[[D0 c0] r]|] eqn:E;
      [|by apply elem_of_nil in H].
    apply list_elem_of_singleton in H as ->.
    apply answer_entry_here_Some in E as (E & Hne & HD & Hc). eauto 6.
Qed.

(** ** The answer map *)

Lemma int_digits_ok D :
  D <> [] -> forallb isdecimal D = true ->
  int D = if (length D <=? MAX_STR_DIGITS)%nat
          then ret (int_digits D)
          else raise ValueError.
Proof. intros Hne HD. unfold int. destruct D; [done|]. by rewrite HD. Qed.

Lemma int_digits_fit D :
  D <> [] -> forallb isdecimal D = true -> length D <= MAX_STR_DIGITS ->
  int D = ret (int_digits D).
Proof.
  intros Hne HD Hl. rewrite int_digits_ok by done.
  by apply Nat.leb_le in Hl as ->.
Qed.

Lemma int_returns D n :
  int D = ret n ->
  D <> [] /\ forallb isdecimal D = true /\ length D <= MAX_STR_DIGITS
  /\ n = int_digits D.
Proof.
  unfold int. destruct D as [|c D]; [done|].
  destruct (forallb isdecimal (c :: D)); [|done].
  destruct (Nat.leb_spec (length (c :: D)) MAX_STR_DIGITS) as [H|H]; [|done].
  by intros [= <-].
Qed.

Lemma answer_fold_entries ms (am : gmap N text) :
  Forall (fun e => e.1.2 <> [] /\ forallb isdecimal e.1.2 = true)
    (map entry_of ms) ->
  for_fold
    (fun (answer_map : gmap N text) m =>
       let! q_num := int (group m 1) in
       let answer_letter := group m 2 in
       ret (<[q_num := answer_letter]> answer_map)) ms am
  = if numbers_fit (map (fun e : nat * text * text => e.1.2)
                      (map entry_of ms))
    then ret (fold_left
                (fun (am : gmap N text) e => <[int_digits e.1.2 := e.2]> am)
                (map entry_of ms) am)
    else raise ValueError.
Proof.
  revert am. induction ms as [|m ms IH]; intros am H; [done|].
  apply Forall_cons in H as [[Hne HD] H].
  cbn [for_fold map fold_left numbers_fit forallb].
  cbn [entry_of fst snd] in Hne, HD. cbn [entry_of fst snd].
  rewrite (int_digits_ok _ Hne HD).
  destruct (length (group m 1) <=? MAX_STR_DIGITS)%nat; [|done].
  rewrite !bind_ret_l. cbn [andb]. by apply IH.
Qed.

Lemma answer_map_of_entries t :
  answer_map_of t
  = if numbers_fit (entry_numbers t)
    then ret (map_of_entries (key_entries false 0 t))
    else raise ValueError.
Proof.
  unfold answer_map_of, map_of_entries, entry_numbers.
  rewrite <- finditer_answer.
  apply answer_fold_entries. rewrite finditer_answer.
  apply Forall_forall. intros e He.
  apply key_entries_shape in He as (i & D & c & -> & Hne & HD). done.
Qed.

Lemma answer_map_of_fit t :
  numbers_fit (entry_numbers t) = true ->
  answer_map_of t = ret (map_of_entries (key_entries false 0 t)).
Proof. intros H. by rewrite answer_map_of_entries, H. Qed.

Lemma fold_entries_snoc (es : list (nat * text * text)) e (am : gmap N text) :
  fold_left (fun (am : gmap N text) e => <[int_digits e.1.2 := e.2]> am)
    (es ++ [e]) am
  = <[int_digits e.1.2 := e.2]>
      (fold_left (fun (am : gmap N text) e => <[int_digits e.1.2 := e.2]> am)
         es am).
Proof. by rewrite fold_left_app. Qed.


Lemma fold_entries_lookup es (am : gmap N text) n v :
  fold_left (fun (am : gmap N text) e => <[int_digits e.1.2 := e.2]> am)
    es am !! n = Some v ->
  am !! n = Some v
  \/ exists e : nat * text * text,
       e ∈ es /\ int_digits e.1.2 = n /\ e.2 = v.
Proof.
  induction es as [|e es IH] using rev_ind; [by left|].
  rewrite fold_entries_snoc.
  destruct (decide (int_digits e.1.2 = n)) as [<-|Hne].
  - rewrite lookup_insert_eq. intros [= <-]. right. exists e.
    split; [|done]. apply elem_of_app. right. by apply list_elem_of_singleton.
  - rewrite lookup_insert_ne by done. intros H.
    destruct (IH H) as [?|(e' & He' & ?)]; [by left|]. right. exists e'.
    split; [|done]. apply elem_of_app. by left.
Qed.


(** ** Splitting on the answer-key header *)

(** Closes an arithmetic goal from the lengths of the two sides of [E]. *)
Ltac by_length E :=
  apply (f_equal length) in E; rewrite ?length_app in E; simpl in E; lia.

Lemma split_from_none fuel sep cur s :
  length s <= fuel ->
  count_occurrences sep s = 0 ->
  split_from fuel sep cur s = [rev cur ++ s].
Proof.
  revert fuel cur. induction s as [|c s IH]; intros fuel cur Hf Hc.
  - rewrite app_nil_r. by destruct fuel.
  - destruct fuel as [|fuel]; [simpl in Hf; lia|]. simpl in Hf.
    cbn [count_occurrences] in Hc. cbn [split_from].
    destruct (starts_with sep (c :: s)); [simpl in Hc; lia|].
    rewrite IH by (simpl in Hc; lia). simpl. by rewrite <- app_assoc.
Qed.

(** No occurrence of the header starts inside an occurrence. *)
Lemma count_inside_header c s r :
  c :: s = ANSWER_KEY ++ r ->
  count_occurrences ANSWER_KEY s = count_occurrences ANSWER_KEY r.
Proof. intros [= -> ->]. done. Qed.

Lemma split_from_length n :
  forall s, length s <= n ->
  forall fuel cur, length s <= fuel ->
  length (split_from fuel ANSWER_KEY cur s)
  = S (count_occurrences ANSWER_KEY s).
Proof.
  induction n as [|n IH]; intros s Hn fuel cur Hf.
  - destruct s; [|simpl in Hn; lia]. by destruct fuel.
  - destruct s as [|c s]; [by destruct fuel|].
    destruct fuel as [|fuel]; [simpl in Hf; lia|]. simpl in Hn, Hf.
    cbn [split_from count_occurrences].
    destruct (starts_with ANSWER_KEY (c :: s)) eqn:E.
    + apply starts_with_spec in E as [r E].
      rewrite (count_inside_header c s r E), E, drop_app_length.
      cbn [length]. rewrite IH; [done|by_length E|by_length E].
    + by rewrite IH by lia.
Qed.

Lemma split_length s :
  length (split ANSWER_KEY s) = S (count_occurrences ANSWER_KEY s).
Proof. unfold split. apply (split_from_length (length s)); lia. Qed.

Lemma answer_key_block_absent s :
  count_occurrences ANSWER_KEY s = 0 ->
  answer_key_block_of s = ([WARNING], Returned []).
Proof.
  intros H. unfold answer_key_block_of, split.
  by rewrite split_from_none by (done || lia).
Qed.

Lemma answer_key_block_repeated s :
  2 <= count_occurrences ANSWER_KEY s ->
  answer_key_block_of s = ([WARNING], Returned []).
Proof.
  intros H. unfold answer_key_block_of.
  pose proof (split_length s) as Hl.
  destruct (split ANSWER_KEY s) as [|a [|b [|c l]]]; simpl in Hl; try lia.
  done.
Qed.

Lemma extract_answers_warning s :
  answer_key_block_of s = ([WARNING], Returned []) ->
  extract_answers s = ([WARNING], Returned ∅).
Proof. intros H. unfold extract_answers. by rewrite H. Qed.

(** *** What the count of occurrences says *)

Lemma count_occurrences_skip p a s :
  count_occurrences p s <= count_occurrences p (a ++ s).
Proof.
  induction a as [|c a IH]; simpl; [lia|].
  destruct (starts_with p (c :: a ++ s)); lia.
Qed.

Lemma count_occurrences_here p b :
  p <> [] -> 1 + count_occurrences p (drop 1 (p ++ b))
             = count_occurrences p (p ++ b).
Proof.
  intros Hp. destruct p as [|c p]; [done|].
  change ((c :: p) ++ b) with (c :: (p ++ b)). cbn [count_occurrences drop].
  change (c :: (p ++ b)) with ((c :: p) ++ b). by rewrite starts_with_app.
Qed.

(** The count is positive exactly when [p] occurs in [s]. *)
Lemma count_occurrences_pos p s :
  p <> [] ->
  0 < count_occurrences p s <-> exists a b, s = a ++ p ++ b.
Proof.
  intros Hp. split.
  - induction s as [|c s IH]; simpl; [lia|].
    destruct (starts_with p (c :: s)) eqn:E.
    + intros _. apply starts_with_spec in E as [r ->]. by exists [], r.
    + intros H. destruct (IH ltac:(lia)) as (a & b & ->).
      by exists (c :: a), b.
  - intros (a & b & ->).
    pose proof (count_occurrences_skip p a (p ++ b)).
    pose proof (count_occurrences_here p b Hp). lia.
Qed.

(** Two occurrences at different offsets make the count two or more. *)
Lemma count_occurrences_two p s a b a' b' :
  p <> [] ->
  s = a ++ p ++ b -> s = a' ++ p ++ b' -> length a < length a' ->
  2 <= count_occurrences p s.
Proof.
  intros Hp -> E Hlen.
  apply app_eq_app_le in E as (l & -> & E); [|lia].
  destruct l as [|c l]; [rewrite length_app in Hlen; simpl in Hlen; lia|].
  pose proof (count_occurrences_skip p a (p ++ b)).
  pose proof (count_occurrences_here p b Hp) as H1.
  rewrite E in H1 at 1.
  change (drop 1 ((c :: l) ++ p ++ b')) with (l ++ p ++ b') in H1.
  pose proof (count_occurrences_skip p l (p ++ b')).
  pose proof (count_occurrences_here p b' Hp). lia.
Qed.

(** ** The question pattern *)

Lemma first_offset_Some ok s j :
  first_offset ok s = Some j ->
  j <= length s /\ ok (drop j s) = true
  /\ forall i, i < j -> ok (drop i s) = false.
Proof.
  revert j. induction s as [|c s IH]; intros j; simpl.
  - destruct (ok []) eqn:E; [|done]. intros [= <-].
    split; [done|]. split; [done|]. lia.
  - destruct (ok (c :: s)) eqn:E.
    + intros [= <-]. split; [lia|]. split; [done|]. lia.
    + destruct (first_offset ok s) as [j'|]; [|done]. intros [= <-].
      destruct (IH j' eq_refl) as (H1 & H2 & H3).
      split; [lia|]. split; [done|].
      intros [|i] Hi; [done|]. simpl. apply H3. lia.
Qed.

Lemma first_offset_None ok s :
  first_offset ok s = None -> forall i, i <= length s -> ok (drop i s) = false.
Proof.
  induction s as [|c s IH]; simpl.
  - destruct (ok []) eqn:E; [done|]. intros _ i Hi.
    by replace i with 0 by lia.
  - destruct (ok (c :: s)) eqn:E; [done|].
    destruct (first_offset ok s) as [j'|]; [done|]. intros _ [|i] Hi; [done|].
    simpl. apply IH; [done|]. simpl in Hi. lia.
Qed.

Lemma first_offset_boundary s : is_Some (first_offset boundary_here s).
Proof.
  induction s as [|c s [j IH]]; simpl; [by eexists|].
  destruct (boundary_here (c :: s)); [by eexists|]. rewrite IH. by eexists.
Qed.

(** The parts of the pattern, run with any continuation. *)
Section Parts.

Context {A : Type}.

(** A lazy [[\s\S]*?] stops at the first offset where what follows can
    match. *)
Lemma lazy_first gs (k : mstate -> option A) (ok : text -> bool) p0 :
  (forall p r, p0 <= p ->
     if ok r then is_Some (k (MState p r gs)) else k (MState p r gs) = None) ->
  forall r p, p0 <= p ->
  repeat_class space_or_not false 0 None p gs r k
  = match first_offset ok r with
    | Some j => k (MState (p + j) (drop j r) gs)
    | None => None
    end.
Proof.
  intros Hk. induction r as [|c r IH]; intros p Hp.
  - specialize (Hk p [] Hp). rewrite repeat_lazy_any, or_else_None_r.
    cbn [first_offset]. destruct (ok []); cbv iota in Hk.
    + by rewrite Nat.add_0_r.
    + by rewrite Hk.
  - specialize (Hk p (c :: r) Hp). rewrite repeat_lazy_any.
    cbn [first_offset]. destruct (ok (c :: r)); cbv iota in Hk.
    + rewrite Nat.add_0_r. change (drop 0 (c :: r)) with (c :: r).
      by destruct Hk as [x ->].
    + rewrite Hk, or_else_None_l, IH by lia.
      destruct (first_offset ok r) as [j|]; [|done]. simpl.
      do 2 f_equal. lia.
Qed.

Lemma run_cat r1 r2 st (k : mstate -> option A) :
  run (r1 +> r2) st k = run r1 st (fun st' => run r2 st' k).
Proof. done. Qed.

Lemma run_group n r st (k : mstate -> option A) :
  run (Group n r) st k
  = run r st (fun st' =>
      k (MState (pos st') (rest st')
           ((n, take (pos st' - pos st) (rest st)) :: groups st'))).
Proof. done. Qed.

Lemma run_repeat p lo hi greedy st (k : mstate -> option A) :
  run (Repeat p lo hi greedy) st k
  = repeat_class p greedy lo hi (pos st) (groups st) (rest st) k.
Proof. done. Qed.

Lemma run_chars l st (k : mstate -> option A) :
  run (Chars l) st k
  = if starts_with l (rest st)
    then k (MState (pos st + length l) (drop (length l) (rest st))
              (groups st))
    else None.
Proof. done. Qed.

Lemma run_look st (k : mstate -> option A) :
  run (Lookahead (Or (Chars QUESTION_MARKER) (Or (Chars ANSWER_KEY) Eol))) st k
  = if boundary_here (rest st) then k st else None.
Proof.
  cbn [run]. unfold boundary_here.
  destruct (starts_with QUESTION_MARKER (rest st)); [done|].
  destruct (starts_with ANSWER_KEY (rest st)); [done|].
  by destruct (at_eol (rest st)).
Qed.

Lemma run_body_part st (k : mstate -> option A) :
  (forall st', pos st <= pos st' -> is_Some (k st')) ->
  run BODY_PART st k
  = match first_offset boundary_here (rest st) with
    | Some e => k (MState (pos st + e) (drop e (rest st))
                     ((2, take e (rest st)) :: groups st))
    | None => None
    end.
Proof.
  intros Hk. unfold BODY_PART. rewrite run_cat, run_group, run_repeat.
  rewrite (lazy_first _ _ boundary_here (pos st)); [| |done].
  - destruct (first_offset boundary_here (rest st)) as [e|] eqn:E; [|done].
    apply first_offset_Some in E as (_ & E & _).
    rewrite run_look. cbn [pos rest groups]. rewrite E.
    by replace (pos st + e - pos st) with e by lia.
  - intros p r Hp. rewrite run_look. cbn [pos rest groups].
    destruct (boundary_here r); [|done]. by apply Hk.
Qed.

Lemma isdecimal_not_space c : isdecimal c = true -> ascii_eqb SPACE c = false.
Proof.
  intros H. unfold ascii_eqb. apply Ascii.eqb_neq. intros <-. done.
Qed.

Lemma run_number R st (k : mstate -> option A) :
  run (Group 1 (Repeat isdecimal 1 None true) +> Chars (txt " ") +> R) st k
  = match drop (span_len isdecimal (rest st)) (rest st) with
    | sp :: r2 =>
        if negb (Nat.eqb (span_len isdecimal (rest st)) 0)
           && ascii_eqb sp SPACE
        then run R (MState (pos st + span_len isdecimal (rest st) + 1) r2
                      ((1, take (span_len isdecimal (rest st)) (rest st))
                         :: groups st)) k
        else None
    | [] => None
    end.
Proof.
  cbn [run pos rest groups]. rewrite repeat_greedy_max.
  2:{ intros st' Hst.
      cbn [pos rest groups txt list_ascii_of_string starts_with].
      destruct (rest st') as [|c r]; [done|]. simpl in Hst.
      change " "%char with SPACE. by rewrite (isdecimal_not_space c Hst). }
  destruct (span_len isdecimal (rest st)) as [|n] eqn:En.
  - simpl. by destruct (rest st).
  - cbn [Nat.leb pos rest groups txt list_ascii_of_string starts_with length
         Nat.eqb negb andb].
    destruct (drop (S n) (rest st)) as [|sp r2]; [done|].
    cbn [starts_with]. unfold ascii_eqb. rewrite Ascii.eqb_sym.
    change " "%char with SPACE. rewrite andb_true_r.
    destruct (Ascii.eqb sp SPACE); [|done]. cbn [drop].
    by replace (pos st + S n - pos st) with (S n) by lia.
Qed.

Lemma run_tail st (k : mstate -> option A) :
  (forall st', pos st <= pos st' -> is_Some (k st')) ->
  run QUESTION_TAIL st k
  = match token_here (rest st) with
    | Some (D, r2) =>
        match first_offset boundary_here r2 with
        | Some e =>
            k (MState (pos st + 9 + length D + 1 + e) (drop e r2)
                 ((2, take e r2) :: (1, D) :: groups st))
        | None => None
        end
    | None => None
    end.
Proof.
  intros Hk. unfold QUESTION_TAIL, token_here.
  rewrite run_cat, run_chars.
  destruct (starts_with (txt "Question ") (rest st)) eqn:E; [|done].
  rewrite run_number. cbn [pos rest groups].
  change (length (txt "Question ")) with 9.
  pose proof (span_len_le isdecimal (drop 9 (rest st))) as Hle.
  destruct (drop (span_len isdecimal (drop 9 (rest st))) (drop 9 (rest st)))
    as [|sp r2]; [done|].
  destruct (negb _ && _); [|done].
  rewrite run_body_part by (intros st' Hst'; apply Hk; cbn [pos] in Hst'; lia).
  cbn [pos rest groups]. rewrite length_take.
  by replace (span_len isdecimal (drop 9 (rest st))
             `min` length (drop 9 (rest st)))
    with (span_len isdecimal (drop 9 (rest st))) by lia.
Qed.

End Parts.

Lemma attempt_question ma start s :
  attempt QUESTION_REGEX ma start s
  = match question_here s with
    | Some (n, D, body, after) =>
        Some (Match start (start + n) [(2, body); (1, D)] after)
    | None => None
    end.
Proof.
  unfold attempt.
  change QUESTION_REGEX
    with (Chars QUESTION_MARKER +> Repeat space_or_not 0 None false
          +> QUESTION_TAIL).
  rewrite run_cat, run_chars. unfold question_here. cbn [pos rest groups].
  destruct (starts_with QUESTION_MARKER s); [|done].
  rewrite run_cat, run_repeat. cbn [pos rest groups].
  set (kfinal := fun st : mstate =>
         if ma && Nat.eqb (pos st) start then None
         else Some (Match start (pos st) (groups st) (rest st))).
  assert (forall st', start + length QUESTION_MARKER <= pos st' ->
            kfinal st'
            = Some (Match start (pos st') (groups st') (rest st'))) as Hfin.
  { intros st' Hst'. unfold kfinal.
    assert (Nat.eqb (pos st') start = false) as ->; [|by rewrite andb_false_r].
    apply Nat.eqb_neq. change (length QUESTION_MARKER) with 30 in Hst'. lia. }
  assert (forall p r, start + length QUESTION_MARKER <= p ->
            run QUESTION_TAIL (MState p r []) kfinal
            = match token_here r with
              | Some (D, r2) =>
                  match first_offset boundary_here r2 with
                  | Some e =>
                      Some (Match start (p + 9 + length D + 1 + e)
                              [(2, take e r2); (1, D)] (drop e r2))
                  | None => None
                  end
              | None => None
              end) as Htail.
  { intros p r Hp. rewrite run_tail.
    - cbn [pos rest groups]. destruct (token_here r) as [[D r2]|]; [|done].
      destruct (first_offset boundary_here r2) as [e|]; [|done].
      rewrite Hfin; [done|]. cbn [pos]. lia.
    - intros st' Hst'. cbn [pos] in Hst'. rewrite Hfin by lia. by eexists. }
  rewrite (lazy_first [] _ has_token (start + length QUESTION_MARKER));
    [| |done].
  - destruct (first_offset has_token _) as [j|]; [|done].
    rewrite Htail by lia.
    destruct (token_here _) as [[D r2]|]; [|done].
    destruct (first_offset boundary_here r2) as [e|]; [|done].
    do 2 f_equal. lia.
  - intros p r Hp. rewrite Htail by done. unfold has_token.
    destruct (token_here r) as [[D r2]|]; [|done].
    destruct (first_offset_boundary r2) as [e ->]. by eexists.
Qed.

Lemma token_here_Some s D r2 :
  token_here s = Some (D, r2)
  <-> s = txt "Question " ++ D ++ SPACE :: r2
      /\ D <> [] /\ forallb isdecimal D = true.
Proof.
  unfold token_here. split.
  - destruct (starts_with (txt "Question ") s) eqn:E; [|done].
    apply starts_with_spec in E as [r1 ->].
    change (drop 9 (txt "Question " ++ r1)) with r1.
    pose proof (span_len_le isdecimal r1) as Hle.
    pose proof (span_len_take isdecimal r1) as Hd.
    pose proof (take_drop (span_len isdecimal r1) r1) as Hs.
    destruct (drop (span_len isdecimal r1) r1) as [|sp r] eqn:Ed; [done|].
    destruct (span_len isdecimal r1) as [|n] eqn:En; [done|].
    cbn [Nat.eqb negb andb]. destruct (ascii_eqb sp SPACE) eqn:Esp; [|done].
    apply Ascii.eqb_eq in Esp as ->. intros [= <- <-].
    rewrite Hs. split; [done|]. split; [|done].
    intros E. apply (f_equal length) in E. rewrite length_take in E.
    cbn [length] in E. lia.
  - intros (-> & Hne & Hd). rewrite starts_with_app.
    change (drop 9 (txt "Question " ++ ?r)) with r.
    rewrite span_len_app by done.
    rewrite drop_app_length, take_app_length.
    destruct D; [done|]. done.
Qed.

Lemma has_token_true s :
  has_token s = true
  <-> exists D r, s = txt "Question " ++ D ++ SPACE :: r
                  /\ D <> [] /\ forallb isdecimal D = true.
Proof.
  unfold has_token. split.
  - destruct (token_here s) as [[D r]|] eqn:E; [|done]. intros _.
    apply token_here_Some in E. eauto.
  - intros (D & r & H). apply token_here_Some in H. by rewrite H.
Qed.

(** What a match at the start of [s] is made of. *)
Lemma question_here_Some s n D body after :
  question_here s = Some (n, D, body, after) ->
  exists gap,
    s = QUESTION_MARKER ++ gap ++ txt "Question " ++ D ++ SPACE :: body ++ after
    /\ n = 30 + length gap + 9 + length D + 1 + length body
    /\ (forall j, j < length gap ->
          has_token (drop j (gap ++ txt "Question " ++ D
                             ++ SPACE :: body ++ after)) = false)
    /\ D <> [] /\ forallb isdecimal D = true
    /\ (forall e, e < length body ->
          boundary_here (drop e (body ++ after)) = false)
    /\ boundary_here after = true.
Proof.
  unfold question_here.
  destruct (starts_with QUESTION_MARKER s) eqn:E; [|done].
  apply starts_with_spec in E as [s1 ->]. rewrite drop_app_length.
  destruct (first_offset has_token s1) as [j|] eqn:Ej; [|done].
  destruct (token_here (drop j s1)) as [[D' r2]|] eqn:Et; [|done].
  destruct (first_offset boundary_here r2) as [e|] eqn:Ee; [|done].
  intros [= <- <- <- <-].
  apply first_offset_Some in Ej as (Hj & _ & Hgap).
  apply first_offset_Some in Ee as (He & Hb & Hbody).
  apply token_here_Some in Et as (Ed & Hne & HD).
  pose proof (take_drop j s1) as Hs1. rewrite Ed in Hs1.
  pose proof (take_drop e r2) as Hr2.
  exists (take j s1). rewrite Hr2, Hs1, !length_take.
  replace (j `min` length s1) with j by lia.
  replace (e `min` length r2) with e by lia.
  split; [done|]. split; [done|]. split; [|done].
  intros i Hi. apply Hgap. lia.
Qed.

Lemma question_here_None s :
  question_here s = None -> ~ question_start s.
Proof.
  unfold question_here. intros H (gap & r & -> & Ht).
  rewrite starts_with_app, drop_app_length in H.
  destruct (first_offset has_token (gap ++ r)) as [j|] eqn:Ej.
  - apply first_offset_Some in Ej as (_ & Ej & _). unfold has_token in Ej.
    destruct (token_here (drop j (gap ++ r))) as [[D r2]|]; [|done].
    by destruct (first_offset_boundary r2) as [e He]; rewrite He in H.
  - pose proof (first_offset_None _ _ Ej (length gap)) as Hn.
    rewrite drop_app_length, length_app in Hn.
    apply has_token_true in Ht. rewrite Ht in Hn.
    by specialize (Hn ltac:(lia)).
Qed.

Lemma search_question ma start s :
  match search_from QUESTION_REGEX ma start s with
  | Some m =>
      exists pre r n D body after,
        s = pre ++ r
        /\ question_here r = Some (n, D, body, after)
        /\ (forall i, i < length pre -> question_here (drop i s) = None)
        /\ m = Match (start + length pre) (start + length pre + n)
                 [(2, body); (1, D)] after
  | None => forall i, i <= length s -> question_here (drop i s) = None
  end.
Proof.
  revert ma start. induction s as [|c s IH]; intros ma start.
  - cbn [search_from]. rewrite attempt_question.
    change (question_here []) with (@None (nat * text * text * text)).
    intros i Hi. by destruct i.
  - cbn [search_from]. rewrite attempt_question.
    destruct (question_here (c :: s)) as [[[[n D] body] after]|] eqn:E.
    + exists [], (c :: s), n, D, body, after. simpl.
      rewrite Nat.add_0_r. split; [done|]. split; [done|].
      split; [lia|done].
    + specialize (IH false (S start)).
      destruct (search_from QUESTION_REGEX false (S start) s) as [m|].
      * destruct IH as (pre & r & n & D & body & after & -> & Hq & Hpre & ->).
        exists (c :: pre), r, n, D, body, after. simpl.
        split; [done|]. split; [done|]. split.
        -- intros [|i] Hi; [done|]. simpl. apply Hpre. lia.
        -- f_equal; lia.
      * intros [|i] Hi; [done|]. simpl. apply IH. simpl in Hi. lia.
Qed.

(** A start marker before the first match would open a match itself. *)
Lemma marker_before_match pre gap r i :
  has_token r = true -> i < length pre ->
  starts_with QUESTION_MARKER (drop i (pre ++ QUESTION_MARKER ++ gap ++ r))
  = true ->
  question_start (drop i (pre ++ QUESTION_MARKER ++ gap ++ r)).
Proof.
  intros Ht Hi E. apply starts_with_spec in E as [x Hx]. rewrite Hx.
  rewrite drop_app_le in Hx by lia.
  replace (drop i pre ++ QUESTION_MARKER ++ gap ++ r)
    with ((drop i pre ++ QUESTION_MARKER ++ gap) ++ r) in Hx
    by by rewrite <- !app_assoc.
  symmetry in Hx. apply app_eq_app_le in Hx as (l & _ & ->).
  - exists l, r. split; [done|]. by apply has_token_true.
  - rewrite !length_app, length_drop. lia.
Qed.

Lemma question_start_nil : ~ question_start [].
Proof. by intros (gap & r & H & _). Qed.

Lemma finditer_question_step fuel start s :
  (forall after start',
     length after < length s ->
     scan_blocks after
       (map block_of (finditer_from fuel QUESTION_REGEX false start' after))) ->
  scan_blocks s
    (map block_of (finditer_from (S fuel) QUESTION_REGEX false start s)).
Proof.
  intros IH. cbn [finditer_from].
  pose proof (search_question false start s) as Hs.
  destruct (search_from QUESTION_REGEX false start s) as [m|].
  - destruct Hs as (pre & r & n & D & body & after & -> & Hq & Hpre & ->).
    apply question_here_Some in Hq
      as (gap & -> & -> & Hgap & Hne & HD & Hbody & Hb).
    cbn [m_end m_start m_after map].
    assert (Nat.eqb (start + length pre
                     + (30 + length gap + 9 + length D + 1 + length body))
              (start + length pre) = false) as ->
      by (apply Nat.eqb_neq; lia).
    change (block_of (Match _ _ [(2, body); (1, D)] after)) with (D, body).
    apply scan_blocks_block; try done.
    + intros i Hi. specialize (Hpre i Hi).
      destruct (starts_with QUESTION_MARKER (drop i _)) eqn:E; [|done].
      exfalso. apply question_here_None in Hpre. apply Hpre.
      apply (marker_before_match pre gap _ i); [|done|done].
      apply has_token_true. by exists D, (body ++ after).
    + intros j Hj Ht. specialize (Hgap j Hj).
      apply has_token_true in Ht. congruence.
    + apply IH. rewrite !length_app. cbn [length]. rewrite !length_app. lia.
  - apply scan_blocks_end. intros i.
    destruct (le_lt_dec i (length s)) as [Hi|Hi].
    + by apply question_here_None, Hs.
    + rewrite drop_ge by lia. apply question_start_nil.
Qed.

Lemma finditer_question_fuel fuel :
  forall s start, length s < fuel ->
  scan_blocks s
    (map block_of (finditer_from fuel QUESTION_REGEX false start s)).
Proof.
  induction fuel as [|fuel IH]; intros s start Hf; [lia|].
  apply finditer_question_step. intros after start' Ha. apply IH. lia.
Qed.

(** The matches of the question pattern are the blocks of the blob. *)
Lemma finditer_question s :
  scan_blocks s (map block_of (finditer QUESTION_REGEX s)).
Proof. unfold finditer. apply finditer_question_fuel. lia. Qed.

Lemma scan_blocks_digits s bs :
  scan_blocks s bs ->
  Forall (fun b : text * text =>
            b.1 <> [] /\ forallb isdecimal b.1 = true) bs.
Proof. induction 1; by constructor. Qed.

(** *** The blocks of a blob are determined *)

Lemma digit_run_unique D D' (R R' : text) :
  forallb isdecimal D = true -> forallb isdecimal D' = true ->
  D ++ SPACE :: R = D' ++ SPACE :: R' -> D = D' /\ R = R'.
Proof.
  intros HD HD' E.
  assert (length D = length D') as Hlen.
  { rewrite <- (span_len_app isdecimal D (SPACE :: R)) by done.
    rewrite <- (span_len_app isdecimal D' (SPACE :: R')) by done.
    by rewrite E. }
  apply app_inj_1 in E as [-> [= ->]]; done.
Qed.

Lemma first_cut_unique (x y x' y' : text) (P : text -> Prop) :
  x ++ y = x' ++ y' ->
  P y -> P y' ->
  (forall i, i < length x -> ~ P (drop i (x ++ y))) ->
  (forall i, i < length x' -> ~ P (drop i (x' ++ y'))) ->
  x = x' /\ y = y'.
Proof.
  intros E Hy Hy' Hx Hx'.
  assert (length x = length x') as Hlen.
  { destruct (lt_eq_lt_dec (length x) (length x')) as [[Hlt|Heq]|Hlt];
      [|done|]; exfalso.
    - apply (Hx' (length x) Hlt). by rewrite <- E, drop_app_length.
    - apply (Hx (length x') Hlt). by rewrite E, drop_app_length. }
  by apply app_inj_1 in E.
Qed.

Lemma scan_blocks_inv s bs :
  scan_blocks s bs ->
  (bs = [] /\ forall i, ~ question_start (drop i s))
  \/ exists pre gap D body after bs0,
       s = pre ++ QUESTION_MARKER ++ gap ++ txt "Question " ++ D
           ++ SPACE :: body ++ after
       /\ bs = (D, body) :: bs0
       /\ (forall i, i < length pre ->
             starts_with QUESTION_MARKER (drop i s) = false)
       /\ (forall j, j < length gap ->
             ~ token_at (drop j (gap ++ txt "Question " ++ D
                                 ++ SPACE :: body ++ after)))
       /\ D <> [] /\ forallb isdecimal D = true
       /\ (forall e, e < length body ->
             boundary_here (drop e (body ++ after)) = false)
       /\ boundary_here after = true
       /\ scan_blocks after bs0.
Proof.
  destruct 1 as [s Hno|pre gap D body after bs0 H1 H2 H3 H4 H5 H6 H7].
  - by left.
  - right. exists pre, gap, D, body, after, bs0. done.
Qed.

Lemma scan_blocks_functional s bs bs' :
  scan_blocks s bs -> scan_blocks s bs' -> bs = bs'.
Proof.
  intros H. revert bs'.
  induction H as [s Hno|pre gap D body after bs Hpre Hgap Hne HD Hbody Hb _ IH];
    intros bs' H'; apply scan_blocks_inv in H'
      as [[-> Hno']|(pre' & gap' & D' & body' & after' & bs0 & E & ->
                     & Hpre' & Hgap' & Hne' & HD' & Hbody' & Hb' & Hrest')].
  - done.
  - exfalso. apply (Hno (length pre')). rewrite E, drop_app_length.
    exists gap', (txt "Question " ++ D' ++ SPACE :: body' ++ after').
    split; [done|]. by exists D', (body' ++ after').
  - exfalso. apply (Hno' (length pre)). rewrite drop_app_length.
    exists gap, (txt "Question " ++ D ++ SPACE :: body ++ after).
    split; [done|]. by exists D, (body ++ after).
  - rewrite E in Hpre'.
    apply (first_cut_unique _ _ _ _
             (fun t => starts_with QUESTION_MARKER t = true)) in E
      as [-> E];
      [|apply starts_with_app|apply starts_with_app
       |by intros i Hi; rewrite Hpre|by intros i Hi; rewrite Hpre'].
    apply app_inv_head in E.
    apply (first_cut_unique _ _ _ _ token_at) in E as [-> E];
      [|by exists D, (body ++ after)|by exists D', (body' ++ after')
       |done|done].
    apply app_inv_head in E.
    apply digit_run_unique in E as [-> E]; [|done|done].
    apply (first_cut_unique _ _ _ _
             (fun t => boundary_here t = true)) in E as [-> ->];
      [|done|done|by intros i Hi; rewrite Hbody
       |by intros i Hi; rewrite Hbody'].
    f_equal. by apply IH.
Qed.

(** ** The whole parse *)

Lemma segment_body_segmented group2 :
  segment_body group2 = ret (segmented group2).
Proof.
  unfold segment_body, segmented.
  pose proof (trimmed_lines_tight (strip group2)) as Ht.
  destruct (Nat.leb_spec 4 (length (trimmed_lines (strip group2)))) as [H|H].
  - rewrite segment_ge4 by done. rewrite strip_join_lines; [done|].
    by apply Forall_take.
  - rewrite segment_lt4 by done. by rewrite strip_join_lines.
Qed.

Lemma process_question_item am m :
  group m 1 <> [] -> forallb isdecimal (group m 1) = true ->
  process_question am m
  = if (length (group m 1) <=? MAX_STR_DIGITS)%nat
    then ret (item_of am (block_of m))
    else raise ValueError.
Proof.
  intros Hne HD. unfold process_question.
  rewrite (int_digits_ok _ Hne HD).
  destruct (length (group m 1) <=? MAX_STR_DIGITS)%nat; [|done].
  rewrite bind_ret_l, segment_body_segmented, bind_ret_l.
  unfold item_of, block_of. cbn [fst snd].
  by destruct (segmented (group m 2)).
Qed.

(** A loop whose body prints nothing and raises on some elements stops at
    the first of them. *)
Lemma for_each_ret {A B} (f : A -> M B) (c : A -> bool) (g : A -> B) e l :
  Forall (fun x => f x = if c x then ret (g x) else raise e) l ->
  for_each f l = if forallb c l then ret (map g l) else raise e.
Proof.
  induction 1 as [|x l Hx Hl IH]; [done|].
  cbn [for_each map forallb]. rewrite Hx. destruct (c x); [|done].
  rewrite bind_ret_l, IH. cbn [andb]. by destruct (forallb c l).
Qed.

Lemma forallb_mapped {A B} (c : B -> bool) (f : A -> B) l :
  forallb c (map f l) = forallb (fun x => c (f x)) l.
Proof. induction l as [|x l IH]; [done|]. cbn [map forallb]. by rewrite IH. Qed.

Lemma questions_processed am s :
  for_each (process_question am) (finditer QUESTION_REGEX s)
  = if numbers_fit (map fst (map block_of (finditer QUESTION_REGEX s)))
    then ret (map (item_of am) (map block_of (finditer QUESTION_REGEX s)))
    else raise ValueError.
Proof.
  rewrite !map_map. unfold numbers_fit. rewrite forallb_mapped.
  apply (for_each_ret (process_question am)
           (fun m => (length (group m 1) <=? MAX_STR_DIGITS)%nat)
           (fun m => item_of am (block_of m))).
  pose proof (scan_blocks_digits _ _ (finditer_question s)) as H.
  rewrite Forall_map in H. eapply Forall_impl; [exact H|].
  intros m [Hne HD]. by apply process_question_item.
Qed.

Lemma split_from_first fuel cur s :
  length s <= fuel ->
  count_occurrences ANSWER_KEY s = 1 ->
  exists a b,
    split_from fuel ANSWER_KEY cur s = [rev cur ++ a; b]
    /\ after_first ANSWER_KEY s = Some b.
Proof.
  revert fuel cur. induction s as [|c s IH]; intros fuel cur Hf Hc; [done|].
  destruct fuel as [|fuel]; [simpl in Hf; lia|]. simpl in Hf.
  cbn [count_occurrences] in Hc. cbn [split_from after_first].
  destruct (starts_with ANSWER_KEY (c :: s)) eqn:E.
  - apply starts_with_spec in E as [r E].
    rewrite (count_inside_header c s r E) in Hc.
    rewrite E, drop_app_length.
    exists [], r. rewrite app_nil_r. split; [|done].
    rewrite split_from_none; [done| |lia].
    by_length E.
  - destruct (IH fuel (c :: cur) ltac:(lia) ltac:(lia)) as (a & b & -> & ->).
    exists (c :: a), b. simpl. by rewrite <- app_assoc.
Qed.

(** [extract_answers] in full: one header gives the answers of the text
    after it; none, or two and more, give the warning and an empty map. *)
Lemma extract_answers_cases s :
  (count_occurrences ANSWER_KEY s = 1
   /\ exists b, after_first ANSWER_KEY s = Some b
                /\ answer_key_block_of s = ([], Returned b)
                /\ extract_answers s = answer_map_of b)
  \/ (count_occurrences ANSWER_KEY s <> 1
      /\ answer_key_block_of s = ([WARNING], Returned [])
      /\ extract_answers s = ([WARNING], Returned ∅)).
Proof.
  destruct (decide (count_occurrences ANSWER_KEY s = 1)) as [H|H].
  - left. split; [done|].
    destruct (split_from_first (S (length s)) [] s ltac:(lia) H)
      as (a & b & Hs & Hb).
    exists b. split; [done|].
    assert (answer_key_block_of s = ([], Returned b)) as Hk.
    { unfold answer_key_block_of, split. by rewrite Hs. }
    split; [done|]. unfold extract_answers. rewrite Hk.
    change ([], Returned b) with (ret b). by rewrite bind_ret_l.
  - right. split; [done|].
    assert (answer_key_block_of s = ([WARNING], Returned [])) as Hk.
    { destruct (count_occurrences ANSWER_KEY s) as [|[|k]] eqn:E; [|done|].
      - by apply answer_key_block_absent.
      - apply answer_key_block_repeated. lia. }
    split; [done|]. by apply extract_answers_warning.
Qed.

(** The answers in one formula: those of [key_text], after the warning
    when there is one. *)
Lemma extract_answers_key s :
  extract_answers s
  = ((if Nat.eqb (count_occurrences ANSWER_KEY s) 1 then [] else [WARNING]),
     if numbers_fit (entry_numbers (key_text s))
     then Returned (map_of_entries (key_entries false 0 (key_text s)))
     else Raised ValueError).
Proof.
  unfold key_text.
  destruct (extract_answers_cases s) as [(H1 & b & Hb & _ & ->)|(H1 & _ & ->)].
  - rewrite H1, Hb. change (default [] (Some b)) with b. cbn [Nat.eqb].
    rewrite answer_map_of_entries.
    by destruct (numbers_fit (entry_numbers b)).
  - apply Nat.eqb_neq in H1. by rewrite H1.
Qed.

(** The parse in one formula. *)
Lemma parse_outcome s :
  parse_quiz_content s
  = (header_warning s,
     if numbers_fit (entry_numbers (key_text s))
        && numbers_fit (map fst (map block_of (finditer QUESTION_REGEX s)))
     then Returned (map (item_of (map_of_entries
                                    (key_entries false 0 (key_text s))))
                      (map block_of (finditer QUESTION_REGEX s)))
     else Raised ValueError).
Proof.
  destruct s as [|c s]; [done|].
  unfold parse_quiz_content, header_warning. cbn [nonempty andb].
  rewrite extract_answers_key.
  destruct (Nat.eqb (count_occurrences ANSWER_KEY (c :: s)) 1);
    (destruct (numbers_fit (entry_numbers (key_text (c :: s)))); [|done]);
    rewrite bind_returned, questions_processed; cbn [andb negb];
    by destruct (numbers_fit _).
Qed.

Lemma parse_returned s out items :
  parse_quiz_content s = (out, Returned items) ->
  out = header_warning s
  /\ numbers_fit (entry_numbers (key_text s)) = true
  /\ numbers_fit (map fst (map block_of (finditer QUESTION_REGEX s))) = true
  /\ items = map (item_of (map_of_entries
                             (key_entries false 0 (key_text s))))
               (map block_of (finditer QUESTION_REGEX s)).
Proof.
  rewrite parse_outcome.
  destruct (numbers_fit (entry_numbers (key_text s))); [|done].
  destruct (numbers_fit (map fst _)); [|done].
  by intros [= <- <-].
Qed.

Lemma Forall2_map_self {A B} (f : A -> B) (P : B -> A -> Prop) l :
  (forall x, P (f x) x) -> Forall2 P (map f l) l.
Proof. intros H. induction l; simpl; by constructor. Qed.

Lemma items_not_found blocks :
  Forall (fun it => answer_letter it = NOT_FOUND)
    (map (item_of (∅ : gmap N text)) blocks).
Proof.
  apply Forall_forall. intros it Hit.
  apply list_elem_of_In, in_map_iff in Hit as (b & <- & _).
  unfold item_of. cbn [answer_letter]. by rewrite lookup_empty.
Qed.

(** The end-to-end scenario: one question with four options and its key. *)
Example sky_scenario :
  parse_quiz_content sky_blob = ([], Returned [sky_item (txt "a")]).
Proof. by vm_compute. Qed.

(** ** Decimal numerals *)

Lemma digit_cons c d :
  isdecimal c = true ->
  exists d', txt (DecimalString.NilEmpty.string_of_uint d')
             = c :: txt (DecimalString.NilEmpty.string_of_uint d).
Proof.
  unfold isdecimal, in_range, code. rewrite andb_true_iff, !N.leb_le.
  intros [H1 H2]. rewrite <- (ascii_N_embedding c).
  assert (N_of_ascii c = 48 \/ N_of_ascii c = 49 \/ N_of_ascii c = 50
          \/ N_of_ascii c = 51 \/ N_of_ascii c = 52 \/ N_of_ascii c = 53
          \/ N_of_ascii c = 54 \/ N_of_ascii c = 55 \/ N_of_ascii c = 56
          \/ N_of_ascii c = 57)%N
    as [->|[->|[->|[->|[->|[->|[->|[->|[->| ->]]]]]]]]] by lia.
  - by exists (Decimal.D0 d).
  - by exists (Decimal.D1 d).
  - by exists (Decimal.D2 d).
  - by exists (Decimal.D3 d).
  - by exists (Decimal.D4 d).
  - by exists (Decimal.D5 d).
  - by exists (Decimal.D6 d).
  - by exists (Decimal.D7 d).
  - by exists (Decimal.D8 d).
  - by exists (Decimal.D9 d).
Qed.

Lemma digits_uint D :
  forallb isdecimal D = true ->
  exists d, txt (DecimalString.NilEmpty.string_of_uint d) = D.
Proof.
  induction D as [|c D IH]; [by exists Decimal.Nil|].
  cbn [forallb]. rewrite andb_true_iff. intros [Hc HD].
  destruct (IH HD) as [d <-]. by apply digit_cons.
Qed.

Lemma uint_digits d :
  forallb isdecimal (txt (DecimalString.NilEmpty.string_of_uint d)) = true.
Proof. induction d; [done|..]; exact IHd. Qed.

Lemma fold_digits d e :
  DecimalPos.Unsigned.of_lu (Decimal.revapp d e)
  = fold_left (fun acc c => (10 * acc + digit_value c)%N)
      (txt (DecimalString.NilEmpty.string_of_uint d))
      (DecimalPos.Unsigned.of_lu e).
Proof.
  revert e. induction d as [|d IH|d IH|d IH|d IH|d IH|d IH|d IH|d IH|d IH|d IH];
    intros e; [done|..];
    cbn [Decimal.revapp]; rewrite IH;
    cbn [DecimalString.NilEmpty.string_of_uint txt list_ascii_of_string
           fold_left];
    f_equal; cbn [DecimalPos.Unsigned.of_lu];
    unfold digit_value, code; cbn [N_of_ascii N_of_digits]; lia.
Qed.

Lemma int_digits_uint d :
  int_digits (txt (DecimalString.NilEmpty.string_of_uint d)) = N.of_uint d.
Proof.
  unfold N.of_uint. rewrite DecimalPos.Unsigned.of_uint_alt.
  unfold Decimal.rev. by rewrite fold_digits.
Qed.

Lemma nzhead_drop_zeros d :
  txt (DecimalString.NilEmpty.string_of_uint (Decimal.nzhead d))
  = drop_zeros (txt (DecimalString.NilEmpty.string_of_uint d)).
Proof. induction d; [done|exact IHd|done..]. Qed.

Lemma unorm_canonical d :
  txt (DecimalString.NilEmpty.string_of_uint (Decimal.unorm d))
  = canonical (txt (DecimalString.NilEmpty.string_of_uint d)).
Proof.
  unfold Decimal.unorm, canonical. rewrite <- nzhead_drop_zeros.
  by destruct (Decimal.nzhead d).
Qed.

(** Writing the number read from [D] gives [D] without its leading zeros. *)
Lemma digits_of_int_digits D :
  forallb isdecimal D = true -> digits_of_N (int_digits D) = canonical D.
Proof.
  intros HD. destruct (digits_uint D HD) as [d <-]. unfold digits_of_N.
  by rewrite int_digits_uint, DecimalN.Unsigned.to_of, unorm_canonical.
Qed.

(** Reading the digits of a number gives the number. *)
Lemma int_digits_of_digits n : int_digits (digits_of_N n) = n.
Proof.
  unfold digits_of_N. rewrite int_digits_uint.
  apply DecimalN.Unsigned.of_to.
Qed.

Lemma digits_of_N_shape n :
  digits_of_N n <> [] /\ forallb isdecimal (digits_of_N n) = true.
Proof.
  split; [|apply uint_digits]. unfold digits_of_N.
  rewrite <- (DecimalN.Unsigned.of_to n) at 1.
  rewrite DecimalN.Unsigned.to_of. unfold Decimal.unorm.
  by destruct (Decimal.nzhead (N.to_uint n)).
Qed.


Lemma drop_zeros_length D : length (drop_zeros D) <= length D.
Proof.
  induction D as [|c D IH]; [done|]. cbn [drop_zeros].
  destruct (ascii_eqb c "0"); simpl; lia.
Qed.

Lemma canonical_length D : D <> [] -> length (canonical D) <= length D.
Proof.
  intros Hne. unfold canonical. pose proof (drop_zeros_length D) as H.
  destruct (drop_zeros D); [|done]. destruct D; [done|]. simpl. lia.
Qed.

(** A number that [int] has read can be written. *)
Lemma str_of_int D n : int D = ret n -> str_of_N n = Returned (canonical D).
Proof.
  intros (Hne & HD & Hl & ->)%int_returns. unfold str_of_N.
  rewrite (digits_of_int_digits D HD).
  pose proof (canonical_length D Hne) as H.
  assert (length (canonical D) <= MAX_STR_DIGITS) as H' by lia.
  by apply Nat.leb_le in H' as ->.
Qed.

(** A number that has been written can be read back. *)
Lemma int_of_str n s : str_of_N n = Returned s -> int s = ret n.
Proof.
  unfold str_of_N.
  destruct (Nat.leb_spec (length (digits_of_N n)) MAX_STR_DIGITS) as [H|H];
    [|done].
  intros [= <-]. destruct (digits_of_N_shape n) as [Hne HD].
  rewrite int_digits_fit by done. by rewrite int_digits_of_digits.
Qed.

(** ** Numerals within the limit *)

Lemma numbers_fit_Forall Ds :
  numbers_fit Ds = true <-> Forall (fun D => length D <= MAX_STR_DIGITS) Ds.
Proof.
  unfold numbers_fit. rewrite forallb_forall, Forall_forall. split.
  - intros H D HD. apply Nat.leb_le, H. by apply list_elem_of_In.
  - intros H D HD. apply Nat.leb_le, H. by apply list_elem_of_In.
Qed.

Lemma numbers_fit_short (Ds : list text) n :
  n <= MAX_STR_DIGITS ->
  Forall (fun D => length D <= n) Ds -> numbers_fit Ds = true.
Proof.
  intros Hn H. apply numbers_fit_Forall. eapply Forall_impl; [exact H|].
  simpl. lia.
Qed.

Lemma entry_numbers_fit t :
  numbers_fit (entry_numbers t) = true
  <-> forall i D c, entry_at t i D c -> length D <= MAX_STR_DIGITS.
Proof.
  rewrite numbers_fit_Forall. unfold entry_numbers.
  rewrite Forall_map, Forall_forall. split.
  - intros H i D c He. apply key_entries_entry_at in He. by apply H in He.
  - intros H e He.
    destruct (key_entries_shape _ _ _ _ He) as (i & D & c & -> & _).
    apply key_entries_entry_at in He. by apply H in He.
Qed.

Lemma entry_at_length t i D c : entry_at t i D c -> length D <= length t.
Proof.
  intros (pre & post & -> & _). rewrite !length_app. lia.
Qed.

Lemma after_first_Some p s b :
  after_first p s = Some b -> exists a, s = a ++ p ++ b.
Proof.
  induction s as [|c s IH]; simpl; [done|].
  destruct (starts_with p (c :: s)) eqn:E.
  - apply starts_with_spec in E as [r E]. rewrite E, drop_app_length.
    intros [= <-]. by exists [].
  - intros H. destruct (IH H) as [a ->]. by exists (c :: a).
Qed.

Lemma key_text_length blob : length (key_text blob) <= length blob.
Proof.
  unfold key_text. destruct (Nat.eqb _ 1); [|simpl; lia].
  destruct (after_first ANSWER_KEY blob) as [b|] eqn:E; [|simpl; lia].
  apply after_first_Some in E as [a ->]. rewrite !length_app. simpl. lia.
Qed.

Lemma scan_blocks_length s bs :
  scan_blocks s bs ->
  Forall (fun b : text * text => length b.1 <= length s) bs.
Proof.
  induction 1 as [s _|pre gap D body after bs _ _ _ _ _ _ _ IH];
    [constructor|].
  constructor.
  - rewrite !length_app. simpl. rewrite !length_app. lia.
  - eapply Forall_impl; [exact IH|]. intros b Hb. simpl in Hb.
    rewrite !length_app. simpl. rewrite !length_app. lia.
Qed.

(** ** The option test on trimmed lines *)

Lemma not_space_not_LF c : isspace c = false -> ascii_eqb c LF = false.
Proof.
  intros H. destruct (ascii_eqb c LF) eqn:E; [|done].
  apply Ascii.eqb_eq in E. by subst c.
Qed.

Ltac option_eval :=
  cbn -[isspace isword in_range isdecimal one_of ascii_eqb].

Ltac class_cases :=
  rewrite ?andb_false_r, ?andb_true_r;
  repeat match goal with
         | |- context [?f ?c] =>
             is_var c;
             match type of (f c) with
             | bool => destruct (f c)
             end
         end;
  done.

Lemma is_option_line_short line :
  tight line -> is_option_line line = short_option line.
Proof.
  intros [H1 H2].
  unfold is_option_line, re_match, attempt, OPTION_PREFIX_PATTERN,
    short_option, marker_char, punct_char.
  destruct line as [|c1 [|c2 [|c3 [|c4 [|c5 r]]]]]; [done|..];
    cbn in H1; option_eval; rewrite H1; option_eval.
  - class_cases.
  - class_cases.
  - cbn in H2. rewrite (not_space_not_LF c3 H2). class_cases.
  - cbn in H2. rewrite (not_space_not_LF c4 H2). class_cases.
  - assert (at_eol (c5 :: r) = false) as H5.
    { destruct r as [|c6 r]; [|done]. cbn in H2. cbn [at_eol].
      by apply not_space_not_LF. }
    change (match r with
            | [] => ascii_eqb c5 LF
            | _ :: _ => false
            end) with (at_eol (c5 :: r)).
    rewrite H5. class_cases.
Qed.

(** * The specification, claim by claim *)

(** ** Segmentation of a block body *)

(** C4, as the specification words it, at a concrete body: the last four of
    its five lines are bare tokens of three or four characters that are not
    white space, so all four match the option pattern of the
    specification.  The script asks for word characters: the line N/A is no
    option line for it, the cut falls on the line after, and the options are
    three lines, with N/A left in the question text. *)
Lemma bare_tokens_not_all_options :
  trimmed_lines (strip bare_tokens_body)
  = [txt "Is it allowed?"; txt "N/A"; txt "Yes"; txt "Nope"; txt "Both"]
  /\ Forall (fun l => described_option_line l = true)
       [txt "N/A"; txt "Yes"; txt "Nope"; txt "Both"]
  /\ segment_body bare_tokens_body
     <> ret (txt "Is it allowed?",
             [txt "N/A"; txt "Yes"; txt "Nope"; txt "Both"])
  /\ segment_body bare_tokens_body
     = ret (txt "Is it allowed?
N/A", [txt "Yes"; txt "Nope"; txt "Both"]).
Proof.
  split; [by vm_compute|]. split; [repeat constructor|].
  split; by vm_compute.
Qed.

(** C4, amended: when the body has at least four trimmed lines and each of
    the last four is a marker character (a letter from a to d in either
    case, or a digit) followed by a dot or a closing parenthesis and nothing
    more, or three or four word characters and nothing more, the options
    are exactly those four lines, in order, and the question text is the
    lines above them joined by newlines; so are the fields of the item
    built from a match with that body. *)
Theorem last_four_all_match group2 pre opts :
  trimmed_lines (strip group2) = pre ++ opts ->
  length opts = 4 ->
  Forall (fun l => short_option l = true) opts ->
  segment_body group2 = ret (join [LF] pre, opts)
  /\ forall am m n,
       group m 2 = group2 -> int (group m 1) = ret n ->
       process_question am m
       = ret {| q_no := n; question := join [LF] pre; options := opts;
                answer_letter := default NOT_FOUND (am !! n) |}.
Proof.
  intros Hl Hlen Hopt.
  assert (segment_body group2 = ret (join [LF] pre, opts)) as Hseg.
  { unfold segment_body. rewrite Hl.
    pose proof (trimmed_lines_tight (strip group2)) as Ht. rewrite Hl in Ht.
    rewrite (segment_window pre opts Hlen Ht).
    apply Forall_app in Ht as [_ Ht].
    destruct opts as [|o opts]; [done|].
    apply Forall_cons in Hopt as [Ho _]. apply Forall_cons in Ht as [[Ht _] _].
    rewrite <- (is_option_line_short o Ht) in Ho.
    rewrite (first_match_head _ _ Ho).
    simpl. by rewrite app_nil_r. }
  split; [done|]. intros am m n <- Hn.
  by apply process_question_segment.
Qed.

Lemma last_four_all_match_witness :
  segment_body (txt "  Which letter comes first?
of these
a)
b)
c)
d)
")
  = ret (txt "Which letter comes first?
of these", [txt "a)"; txt "b)"; txt "c)"; txt "d)"]).
Proof.
  apply (last_four_all_match _
           [txt "Which letter comes first?"; txt "of these"]
           [txt "a)"; txt "b)"; txt "c)"; txt "d)"]).
  - vm_compute. reflexivity.
  - reflexivity.
  - repeat constructor.
Defined.

(** C5: when the body has at least four trimmed lines and none of the last
    four matches the option pattern, the last four lines are the options
    whatever they contain, and the question text is the lines above them;
    so are the fields of the item built from a match with that body. *)
Theorem fallback_last_four group2 pre w :
  trimmed_lines (strip group2) = pre ++ w ->
  length w = 4 ->
  Forall (fun l => is_option_line l = false) w ->
  segment_body group2 = ret (join [LF] pre, w)
  /\ forall am m n,
       group m 2 = group2 -> int (group m 1) = ret n ->
       process_question am m
       = ret {| q_no := n; question := join [LF] pre; options := w;
                answer_letter := default NOT_FOUND (am !! n) |}.
Proof.
  intros Hl Hlen Hw.
  assert (segment_body group2 = ret (join [LF] pre, w)) as Hseg.
  { unfold segment_body. rewrite Hl.
    pose proof (trimmed_lines_tight (strip group2)) as Ht. rewrite Hl in Ht.
    rewrite (segment_window pre w Hlen Ht).
    apply first_match_None in Hw. rewrite Hw. simpl. by rewrite app_nil_r. }
  split; [done|]. intros am m n <- Hn.
  by apply process_question_segment.
Qed.

Lemma fallback_last_four_witness :
  segment_body (txt "What color is the sky?
A) Blue
B) Red
C) Green
D) Yellow
")
  = ret (txt "What color is the sky?",
         [txt "A) Blue"; txt "B) Red"; txt "C) Green"; txt "D) Yellow"]).
Proof.
  apply (fallback_last_four _ [txt "What color is the sky?"]
           [txt "A) Blue"; txt "B) Red"; txt "C) Green"; txt "D) Yellow"]).
  - vm_compute. reflexivity.
  - reflexivity.
  - repeat constructor.
Defined.

(** C6, as the specification words it, at a concrete body: the first option
    line is the second of six lines, before the last four.  The
    specification gives the options as lines 1 to 4 and loses the last line;
    the script looks at the last four lines only, finds no option line
    there, and keeps every line. *)
Lemma early_marker_not_a_split_point :
  first_match (trimmed_lines (strip early_marker_body)) = Some 1
  /\ 1 + 4 < length (trimmed_lines (strip early_marker_body))
  /\ segment_body early_marker_body
     <> ret (join [LF] (take 1 (trimmed_lines (strip early_marker_body))),
             take 4 (drop 1 (trimmed_lines (strip early_marker_body))))
  /\ segment_body early_marker_body
     = ret (txt "Pick one
a)", [txt "alpha one"; txt "beta two"; txt "gamma three"; txt "delta four"]).
Proof.
  split; [by vm_compute|]. split; [vm_compute; lia|].
  split; [by vm_compute|]. by vm_compute.
Qed.

(** C6, amended: with four lines or more, option lines before the last four
    play no part.  The cut is at the first option line among the last four
    ([j] lines into them), or at the first of the four when none matches; the
    options are [lines[cut : cut + 4]], a slice that always reaches the last
    line, so no line is lost after it. *)
Theorem cut_inside_last_four group2 pre w :
  trimmed_lines (strip group2) = pre ++ w ->
  length w = 4 ->
  let lines := pre ++ w in
  let j := default 0 (first_match w) in
  let cut := Z.of_nat (length pre + j) in
  segment_body group2
  = ret (join [LF] (pre ++ take j w), slice lines cut (cut + 4))
  /\ slice lines cut (cut + 4) = drop j w
  /\ (len lines <= cut + 4)%Z.
Proof.
  intros Hl Hlen lines j cut. unfold segment_body. rewrite Hl.
  pose proof (trimmed_lines_tight (strip group2)) as Ht. rewrite Hl in Ht.
  assert (j < 4) as Hj.
  { unfold j. destruct (first_match w) as [j'|] eqn:E; simpl; [|lia].
    apply first_match_Some in E as [E _]. lia. }
  assert (slice lines cut (cut + 4) = drop j w) as Hs.
  { unfold cut, lines. change 4%Z with (Z.of_nat 4).
    rewrite slice_tail by (rewrite length_app; lia).
    by rewrite drop_app_add'. }
  split; [|split; [done|]].
  - rewrite Hs. by apply segment_window.
  - unfold len, lines, cut. rewrite length_app. lia.
Qed.

Lemma cut_inside_last_four_witness :
  segment_body early_marker_body
  = ret (txt "Pick one
a)", [txt "alpha one"; txt "beta two"; txt "gamma three"; txt "delta four"]).
Proof.
  exact (proj1 (cut_inside_last_four early_marker_body
                  [txt "Pick one"; txt "a)"]
                  [txt "alpha one"; txt "beta two"; txt "gamma three";
                   txt "delta four"] eq_refl eq_refl)).
Defined.

(** C10: with four lines or more the cut lies within the last four lines, the
    options are the whole suffix from the cut (one to four lines), and the
    lines of the question text followed by the options are the lines of the
    body: no line is lost. *)
Theorem segmentation_keeps_every_line group2 :
  4 <= length (trimmed_lines (strip group2)) ->
  exists (i : nat) (q : text) (opts : list text),
    find_option_start (trimmed_lines (strip group2)) = ret (Z.of_nat i)
    /\ length (trimmed_lines (strip group2)) - 4 <= i
       < length (trimmed_lines (strip group2))
    /\ segment_body group2 = ret (q, opts)
    /\ opts = drop i (trimmed_lines (strip group2))
    /\ 1 <= length opts <= 4
    /\ q = join [LF] (take i (trimmed_lines (strip group2)))
    /\ trimmed_lines q ++ opts = trimmed_lines (strip group2).
Proof.
  intros H. set (lines := trimmed_lines (strip group2)) in *.
  pose proof (split_point_bounds lines H) as Hb.
  pose proof (trimmed_lines_clean (strip group2)) as Hc. fold lines in Hc.
  assert (Forall clean_line (take (split_point lines) lines)) as Hq
    by by apply Forall_take.
  exists (split_point lines), (join [LF] (take (split_point lines) lines)),
    (drop (split_point lines) lines).
  split; [by apply find_option_start_ge4|]. split; [done|].
  split.
  { unfold segment_body. fold lines. rewrite segment_ge4 by done.
    rewrite strip_join_lines; [done|]. by apply Forall_and in Hq as [Hq _]. }
  split; [done|]. split; [rewrite length_drop; lia|]. split; [done|].
  rewrite trimmed_lines_join by done. apply take_drop.
Qed.

Lemma segmentation_keeps_every_line_witness :
  exists (i : nat) (q : text) (opts : list text),
    find_option_start (trimmed_lines (strip early_marker_body))
    = ret (Z.of_nat i)
    /\ length (trimmed_lines (strip early_marker_body)) - 4 <= i
       < length (trimmed_lines (strip early_marker_body))
    /\ segment_body early_marker_body = ret (q, opts)
    /\ opts = drop i (trimmed_lines (strip early_marker_body))
    /\ 1 <= length opts <= 4
    /\ q = join [LF] (take i (trimmed_lines (strip early_marker_body)))
    /\ trimmed_lines q ++ opts = trimmed_lines (strip early_marker_body).
Proof.
  apply (segmentation_keeps_every_line early_marker_body).
  vm_compute. lia.
Defined.

(** ** The answer key *)




(** ** The answer-key header *)

(** C1, at a blob with two headers: the text after the first header holds
    the entries 1.a and 2.b, and read on its own it gives both answers.  The
    script splits on every header, fails to unpack three parts into two, and
    falls into the handler of the missing header: it prints that the header
    was not found, the map is empty and question 1 gets no answer. *)
Lemma two_headers_not_split_once :
  2 <= count_occurrences ANSWER_KEY two_headers_blob
  /\ after_first ANSWER_KEY two_headers_blob = Some (txt "
1.a
Answer key
2.b")
  /\ (exists am : gmap N text,
        answer_map_of (txt "
1.a
Answer key
2.b") = ret am
        /\ am !! 1%N = Some (txt "a") /\ am !! 2%N = Some (txt "b"))
  /\ (extract_answers two_headers_blob).2 <> (answer_map_of (txt "
1.a
Answer key
2.b")).2
  /\ extract_answers two_headers_blob = ([WARNING], Returned ∅)
  /\ parse_quiz_content two_headers_blob
     = ([WARNING],
        Returned [ {| q_no := 1; question := txt "Pick"; options := [];
                      answer_letter := NOT_FOUND |} ]).
Proof.
  split; [vm_compute; lia|]. split; [by vm_compute|]. split; [|split].
  - eexists. split; [by apply answer_map_of_fit; vm_compute|]. by vm_compute.
  - rewrite answer_map_of_fit by by vm_compute. intros H.
    apply (f_equal (fun o : outcome (gmap N text) =>
                      match o with
                      | Returned m => m !! 1%N
                      | Raised _ => None
                      end)) in H.
    vm_compute in H. discriminate H.
  - split; by vm_compute.
Qed.

(** C3: for a blob without the header the answer map is empty and only the
    warning is printed; the questions are still extracted, and every item has
    the not-found answer.  The items are returned whenever the number of
    every block has at most 4300 digits; when one has more, its conversion
    raises [ValueError] after the warning. *)
Theorem missing_header_gives_no_answers blob :
  count_occurrences ANSWER_KEY blob = 0 ->
  extract_answers blob = ([WARNING], Returned ∅)
  /\ exists blocks items,
       scan_blocks blob blocks
       /\ parse_quiz_content blob
          = ((if nonempty blob then [WARNING] else []),
             if numbers_fit (map fst blocks)
             then Returned items else Raised ValueError)
       /\ items = map (item_of ∅) blocks
       /\ Forall (fun it => answer_letter it = NOT_FOUND) items.
Proof.
  intros H.
  pose proof (extract_answers_warning blob (answer_key_block_absent blob H))
    as He.
  split; [done|].
  exists (map block_of (finditer QUESTION_REGEX blob)).
  exists (map (item_of ∅) (map block_of (finditer QUESTION_REGEX blob))).
  split; [apply finditer_question|]. split; [|split; [done|]].
  - rewrite parse_outcome. unfold header_warning, key_text. rewrite H.
    cbn [Nat.eqb negb andb]. rewrite andb_true_r. done.
  - apply items_not_found.
Qed.

Lemma missing_header_gives_no_answers_witness :
  extract_answers headerless_blob = ([WARNING], Returned ∅)
  /\ exists blocks items,
       scan_blocks headerless_blob blocks
       /\ parse_quiz_content headerless_blob
          = ([WARNING], Returned [sky_item NOT_FOUND])
       /\ items = [sky_item NOT_FOUND]
       /\ Forall (fun it => answer_letter it = NOT_FOUND) items.
Proof.
  destruct (missing_header_gives_no_answers headerless_blob eq_refl)
    as (He & blocks & items & Hs & Hp & Hi & Hn).
  split; [exact He|]. exists blocks, items. split; [exact Hs|].
  assert (parse_quiz_content headerless_blob
          = ([WARNING], Returned [sky_item NOT_FOUND])) as Hq
    by by vm_compute.
  split; [exact Hq|]. split; [|exact Hn].
  rewrite Hq in Hp.
  destruct (numbers_fit (map fst blocks)); [|discriminate Hp].
  injection Hp as <-. reflexivity.
Defined.

(** ** Question blocks *)

(** C2, as the specification words it, at two concrete blobs.  In the first
    the start marker is followed by the word Question and the integer 7, so
    the specification expects an item; but a line break, not a space,
    follows the integer, and the script produces no item.  In the second the
    start marker occurs twice, each time followed by the word Question and
    the integer 1, so the specification expects two items; the script
    produces one, since the text between the first marker and the token
    takes in the second marker. *)
Lemma number_then_newline_gives_no_item :
  (described_start number_then_newline_blob
   /\ parse_quiz_content number_then_newline_blob = ([WARNING], Returned []))
  /\ (described_start nested_markers_blob
      /\ described_start (drop 31 nested_markers_blob)
      /\ parse_quiz_content nested_markers_blob
         = ([WARNING],
            Returned [ {| q_no := 1; question := txt "x"; options := [];
                          answer_letter := NOT_FOUND |} ])).
Proof.
  split; [split; [|by vm_compute]|split; [|split; [|by vm_compute]]].
  - exists [LF], (txt "7"), (txt "
What now?"). split; [done|]. split; [done|]. split; [done|].
    simpl. done.
  - exists (txt " Type: Multiple choice question "), (txt "1"), (txt " x").
    split; [done|]. split; [done|]. split; [done|]. simpl. done.
  - exists (txt " "), (txt "1"), (txt " x").
    split; [done|]. split; [done|]. split; [done|]. simpl. done.
Qed.

(** C2, amended: the items are those of the blocks of the blob, in order.
    A block opens at the first occurrence of the start marker that has,
    somewhere after it, the word Question, a space, a run of digits and a
    space; its number is the first such run; its body is everything after
    that space up to, and not including, the next start marker, the
    answer-key header or the end of input (a last newline left out),
    whichever comes first; the next block is looked for from there on.
    These conditions determine the list of blocks.  The items are returned
    whenever every number of the answer key in use and of the blocks has at
    most 4300 digits; otherwise a conversion raises [ValueError]. *)
Theorem items_are_the_blocks :
  forall blob, exists blocks out items,
    scan_blocks blob blocks
    /\ (forall bs, scan_blocks blob bs -> bs = blocks)
    /\ parse_quiz_content blob
       = (out,
          if numbers_fit (entry_numbers (key_text blob))
             && numbers_fit (map fst blocks)
          then Returned items else Raised ValueError)
    /\ Forall2
         (fun it (b : text * text) =>
            q_no it = int_digits b.1
            /\ segment_body b.2 = ret (question it, options it))
         items blocks.
Proof.
  intros blob. exists (map block_of (finditer QUESTION_REGEX blob)).
  pose proof (finditer_question blob) as Hscan.
  assert (forall bs, scan_blocks blob bs ->
            bs = map block_of (finditer QUESTION_REGEX blob)) as Huniq
    by (intros bs Hbs; apply (scan_blocks_functional blob); done).
  eexists _, _. do 2 (split; [done|]). split; [apply parse_outcome|].
  apply Forall2_map_self. intros b. split; [done|].
  rewrite segment_body_segmented. unfold item_of. cbn [question options].
  by destruct (segmented b.2).
Qed.

(** ** No exception *)

(** C9, at a blob whose one question has a number of 4301 digits: the
    warning of the missing header is printed, and the conversion of the
    number, which no handler surrounds, raises [ValueError]. *)
Theorem long_number_raises :
  parse_quiz_content long_number_blob = ([WARNING], Raised ValueError).
Proof. by vm_compute. Qed.
(** * Further properties *)

(** ** Bodies and items *)

Lemma segmented_clean group2 :
  length (segmented group2).2 <= 4
  /\ Forall clean_line (segmented group2).2
  /\ tight (segmented group2).1.
Proof.
  unfold segmented.
  pose proof (trimmed_lines_clean (strip group2)) as Hc.
  pose proof (trimmed_lines_tight (strip group2)) as Ht.
  destruct (Nat.leb_spec 4 (length (trimmed_lines (strip group2)))) as [H|H];
    cbn [fst snd].
  - pose proof (split_point_bounds _ H) as Hb.
    split; [rewrite length_drop; lia|].
    split; [by apply Forall_drop|]. apply join_tight. by apply Forall_take.
  - split; [simpl; lia|]. split; [constructor|]. by apply join_tight.
Qed.

(** A parse that returns gives the items of the blocks under the answer map
    that [extract_answers] gives. *)
Lemma parse_items blob out items :
  parse_quiz_content blob = (out, Returned items) ->
  exists am : gmap N text,
    (blob <> [] -> extract_answers blob = (out, Returned am))
    /\ items = map (item_of am) (map block_of (finditer QUESTION_REGEX blob))
    /\ numbers_fit (map fst (map block_of (finditer QUESTION_REGEX blob)))
       = true.
Proof.
  intros (Hout & Hk & Hb & Hi)%parse_returned.
  exists (map_of_entries (key_entries false 0 (key_text blob))).
  split; [|done]. intros Hne. rewrite extract_answers_key, Hk, Hout.
  unfold header_warning. destruct blob; [done|]. cbn [nonempty andb].
  by destruct (Nat.eqb _ 1).
Qed.

(** X1: a body with fewer than four trimmed lines has no options, and its
    question text is all its lines joined by newlines; so are the fields of
    the item built from a match with that body. *)
Theorem fewer_than_four_lines group2 :
  length (trimmed_lines (strip group2)) < 4 ->
  segment_body group2 = ret (join [LF] (trimmed_lines (strip group2)), [])
  /\ forall am m n,
       group m 2 = group2 -> int (group m 1) = ret n ->
       process_question am m
       = ret {| q_no := n;
                question := join [LF] (trimmed_lines (strip group2));
                options := [];
                answer_letter := default NOT_FOUND (am !! n) |}.
Proof.
  intros H.
  assert (segment_body group2
          = ret (join [LF] (trimmed_lines (strip group2)), [])) as Hseg.
  { unfold segment_body. rewrite segment_lt4 by done.
    by rewrite strip_join_lines by apply trimmed_lines_tight. }
  split; [done|]. intros am m n <- Hn. by apply process_question_segment.
Qed.

Lemma fewer_than_four_lines_witness :
  segment_body (txt "  Which one?
 first
second  ")
  = ret (txt "Which one?
first
second", []).
Proof.
  apply (fewer_than_four_lines (txt "  Which one?
 first
second  ")).
  vm_compute. lia.
Defined.

(** X2: in every item a parse returns there are at most four options, each
    option is a non-empty line without white space at its ends and without a
    line break, and the question text has no white space at its ends. *)
Theorem items_are_clean blob out items :
  parse_quiz_content blob = (out, Returned items) ->
  Forall (fun it =>
            length (options it) <= 4
            /\ Forall clean_line (options it)
            /\ tight (question it)) items.
Proof.
  intros (am & _ & -> & _)%parse_items.
  apply Forall_forall. intros it Hit.
  apply list_elem_of_In, in_map_iff in Hit as (b & <- & _).
  unfold item_of. cbn [options question]. apply segmented_clean.
Qed.

Lemma items_are_clean_witness :
  Forall (fun it =>
            length (options it) <= 4
            /\ Forall clean_line (options it)
            /\ tight (question it)) [sky_item (txt "a")].
Proof.
  apply (items_are_clean sky_blob [] [sky_item (txt "a")]).
  vm_compute. reflexivity.
Defined.

Lemma scan_blocks_count s bs :
  scan_blocks s bs -> length bs <= count_occurrences QUESTION_MARKER s.
Proof.
  induction 1 as [s _|pre gap D body after bs _ _ _ _ _ _ _ IH]; [simpl; lia|].
  pose proof (count_occurrences_skip QUESTION_MARKER pre
                (QUESTION_MARKER ++ gap ++ txt "Question " ++ D
                 ++ SPACE :: body ++ after)) as H1.
  pose proof (count_occurrences_here QUESTION_MARKER
                (gap ++ txt "Question " ++ D ++ SPACE :: body ++ after)
                ltac:(done)) as H2.
  assert (count_occurrences QUESTION_MARKER after
          <= count_occurrences QUESTION_MARKER
               (drop 1 (QUESTION_MARKER ++ gap ++ txt "Question " ++ D
                        ++ SPACE :: body ++ after))) as H3.
  { replace (QUESTION_MARKER ++ gap ++ txt "Question " ++ D
             ++ SPACE :: body ++ after)
      with ((QUESTION_MARKER ++ gap ++ txt "Question " ++ D
             ++ SPACE :: body) ++ after)
      by (by rewrite <- !app_assoc).
    rewrite drop_app_le by (rewrite length_app; simpl; lia).
    apply count_occurrences_skip. }
  simpl length. lia.
Qed.

(** X3: a parse never returns more items than the blob has occurrences of
    the start marker; from a blob without the marker it returns no item. *)
Theorem items_bounded_by_markers blob out items :
  parse_quiz_content blob = (out, Returned items) ->
  length items <= count_occurrences QUESTION_MARKER blob
  /\ (count_occurrences QUESTION_MARKER blob = 0 -> items = []).
Proof.
  intros (am & _ & -> & _)%parse_items.
  pose proof (scan_blocks_count _ _ (finditer_question blob)) as H.
  rewrite length_map. split; [done|]. intros H0. rewrite H0 in H.
  destruct (map block_of (finditer QUESTION_REGEX blob)); [done|].
  simpl in H. lia.
Qed.

Lemma items_bounded_by_markers_witness :
  length [sky_item (txt "a")] <= count_occurrences QUESTION_MARKER sky_blob
  /\ (count_occurrences QUESTION_MARKER sky_blob = 0
      -> [sky_item (txt "a")] = []).
Proof.
  apply (items_bounded_by_markers sky_blob []).
  vm_compute. reflexivity.
Defined.

(** X4: when the header occurs exactly once the blob reads [a], the header,
    [b]; the answer-key block is [b], the answers are those of [b] alone,
    exception included, and the parse prints nothing. *)
Theorem single_header_answers blob :
  count_occurrences ANSWER_KEY blob = 1 ->
  exists a b,
    blob = a ++ ANSWER_KEY ++ b
    /\ answer_key_block_of blob = ret b
    /\ extract_answers blob = answer_map_of b
    /\ (parse_quiz_content blob).1 = [].
Proof.
  intros H.
  destruct (extract_answers_cases blob) as [(_ & b & Hb & Hk & He)|[H1 _]];
    [|done].
  destruct (after_first_Some _ _ _ Hb) as [a Ha].
  exists a, b. do 3 (split; [done|]).
  rewrite parse_outcome. unfold header_warning. rewrite H.
  by rewrite andb_false_r.
Qed.

Lemma single_header_answers_witness :
  exists a b,
    txt "1.d Answer key 2.b" = a ++ ANSWER_KEY ++ b
    /\ answer_key_block_of (txt "1.d Answer key 2.b") = ret b
    /\ extract_answers (txt "1.d Answer key 2.b") = answer_map_of b
    /\ (parse_quiz_content (txt "1.d Answer key 2.b")).1 = [].
Proof.
  apply (single_header_answers (txt "1.d Answer key 2.b")).
  vm_compute. reflexivity.
Defined.

Lemma in_range_letter c :
  in_range 97 100 c = true -> c = "a" \/ c = "b" \/ c = "c" \/ c = "d".
Proof.
  unfold in_range, code. rewrite andb_true_iff, !N.leb_le. intros [H1 H2].
  rewrite <- (ascii_N_embedding c).
  assert (N_of_ascii c = 97 \/ N_of_ascii c = 98 \/ N_of_ascii c = 99
          \/ N_of_ascii c = 100)%N as [->|[->|[->| ->]]] by lia; tauto.
Qed.

Lemma extract_answers_letters s out (am : gmap N text) :
  extract_answers s = (out, Returned am) ->
  forall n v, am !! n = Some v ->
  exists c, in_range 97 100 c = true /\ v = [c].
Proof.
  rewrite extract_answers_key. intros He n v Hv.
  destruct (numbers_fit (entry_numbers (key_text s))); [|done].
  injection He as _ <-.
  apply fold_entries_lookup in Hv as [Hv|(e & He & _ & <-)];
    [by rewrite lookup_empty in Hv|].
  destruct (key_entries_shape _ _ _ _ He) as (i & D & c & -> & _).
  apply key_entries_spec in He as (_ & _ & _ & _ & _ & _ & Hc & _).
  by exists c.
Qed.

(** X5: every item a parse returns carries the answer of its number: the
    letter the answer map holds for it, or the not-found value when the map
    holds none.  So an answer letter is one of a, b, c, d, or the not-found
    value. *)
Theorem answer_letter_joined blob out items :
  blob <> [] ->
  parse_quiz_content blob = (out, Returned items) ->
  exists am : gmap N text,
    extract_answers blob = (out, Returned am)
    /\ Forall (fun it =>
                 answer_letter it = default NOT_FOUND (am !! q_no it)
                 /\ (answer_letter it = NOT_FOUND
                     \/ exists c, in_range 97 100 c = true
                                  /\ answer_letter it = [c])) items.
Proof.
  intros Hne (am & He & -> & _)%parse_items. specialize (He Hne).
  exists am. split; [done|].
  apply Forall_forall. intros it Hit.
  apply list_elem_of_In, in_map_iff in Hit as (b & <- & _).
  unfold item_of. cbn [answer_letter q_no]. split; [done|].
  destruct (am !! int_digits b.1) as [v|] eqn:Hv; [right|by left].
  by apply (extract_answers_letters _ _ _ He _ _ Hv).
Qed.

Lemma answer_letter_joined_witness :
  exists am : gmap N text,
    extract_answers sky_blob = ([], Returned am)
    /\ Forall (fun it =>
                 answer_letter it = default NOT_FOUND (am !! q_no it)
                 /\ (answer_letter it = NOT_FOUND
                     \/ exists c, in_range 97 100 c = true
                                  /\ answer_letter it = [c]))
         [sky_item (txt "a")].
Proof.
  apply (answer_letter_joined sky_blob [] [sky_item (txt "a")]).
  - discriminate.
  - vm_compute. reflexivity.
Defined.

(** X6: the warning is printed once when a non-empty blob has no header or
    several, and not at all for the empty blob or a blob with one header;
    nothing else is ever printed by the parse, whether it returns or
    raises, and the only exception it raises is [ValueError]. *)
Theorem warning_unless_one_header :
  forall blob, exists o,
    parse_quiz_content blob
    = ((if nonempty blob
           && negb (Nat.eqb (count_occurrences ANSWER_KEY blob) 1)
        then [WARNING] else []),
       o)
    /\ (o = Raised ValueError \/ exists items, o = Returned items).
Proof.
  intros blob. rewrite parse_outcome. eexists. split; [done|].
  destruct (_ && _); eauto.
Qed.

(** ** The reader *)

Lemma kept_lines_app (l1 l2 : list text) :
  map strip (List.filter (fun line => nonempty (strip line)) (l1 ++ l2))
  = map strip (List.filter (fun line => nonempty (strip line)) l1)
    ++ map strip (List.filter (fun line => nonempty (strip line)) l2).
Proof. by rewrite List.filter_app, map_app. Qed.

Lemma kept_lines_cur cur (l : list text) :
  map strip (List.filter (fun line => nonempty (strip line)) (rev cur :: l))
  = map strip (List.filter (fun line => nonempty (strip line))
                 match cur with [] => [] | _ => [rev cur] end)
    ++ map strip (List.filter (fun line => nonempty (strip line)) l).
Proof.
  destruct cur as [|c cur]; [done|].
  by rewrite <- kept_lines_app.
Qed.

(** A paragraph break only separates lines. *)
Lemma kept_lines_break after_cr cur a q :
  map strip (List.filter (fun line => nonempty (strip line))
               (splitlines_from after_cr cur (a ++ LF :: LF :: q)))
  = map strip (List.filter (fun line => nonempty (strip line))
                 (splitlines_from after_cr cur a))
    ++ trimmed_lines q.
Proof.
  unfold trimmed_lines, splitlines.
  revert after_cr cur. induction a as [|c a IH]; intros after_cr cur.
  - cbn [app]. destruct after_cr.
    + change (splitlines_from true cur (LF :: LF :: q))
        with (rev cur :: splitlines_from false [] q).
      by rewrite kept_lines_cur.
    + change (splitlines_from false cur (LF :: LF :: q))
        with (rev cur :: [] :: splitlines_from false [] q).
      by rewrite kept_lines_cur.
  - cbn [app splitlines_from].
    destruct (after_cr && ascii_eqb c LF); [apply IH|].
    destruct (islinebreak c); [|apply IH].
    rewrite (kept_lines_cur cur (splitlines_from _ _ (a ++ _))).
    rewrite (kept_lines_cur cur (splitlines_from _ _ a)).
    by rewrite IH, app_assoc.
Qed.

Lemma trimmed_lines_paragraphs (ps : list text) :
  trimmed_lines (join [LF; LF] ps) = concat (map trimmed_lines ps).
Proof.
  induction ps as [|p ps IH]; [done|].
  destruct ps as [|p' ps]; [simpl; by rewrite app_nil_r|].
  rewrite join_cons by done.
  change (concat (map trimmed_lines (p :: p' :: ps)))
    with (trimmed_lines p ++ concat (map trimmed_lines (p' :: ps))).
  rewrite <- IH. apply (kept_lines_break false [] p).
Qed.

(** X7: for a document that opens, the reader prints nothing and returns a
    string whose non-empty trimmed lines are those of the stripped
    paragraphs, in the order of the paragraphs: joining the paragraphs adds
    and loses no line. *)
Theorem paragraphs_become_lines :
  forall paragraph_texts, exists blob,
    read_docx_to_string (DocxOpened paragraph_texts) = ([], Some blob)
    /\ trimmed_lines blob
       = concat (map (fun p => trimmed_lines (strip p)) paragraph_texts).
Proof.
  intros ps. eexists. split; [done|].
  by rewrite trimmed_lines_paragraphs, map_map.
Qed.

(** ** The formatter *)

Lemma lstrip_span s : lstrip s = drop (span_len isspace s) s.
Proof. induction s as [|c s IH]; simpl; [done|]. by destruct (isspace c). Qed.

Lemma strip_lstrip s : strip (lstrip s) = strip s.
Proof.
  unfold strip. by rewrite (head_ok_lstrip _ (lstrip_head_ok s)).
Qed.

Lemma space_not_marker c : isspace c = true -> marker_char c = false.
Proof.
  unfold isspace, marker_char, isdecimal, in_range.
  intros H.
  match goal with |- ?x = false => destruct x eqn:E; [exfalso|done] end.
  rewrite ?orb_true_iff, ?andb_true_iff, ?N.leb_le, ?N.eqb_eq in H.
  rewrite ?orb_true_iff, ?andb_true_iff, ?N.leb_le, ?N.eqb_eq in E. lia.
Qed.

Lemma repeat_greedy_all {A : Type} p at_pos gs s (k : mstate -> option A) :
  (forall st, is_Some (k st)) ->
  repeat_class p true 0 None at_pos gs s k
  = k (MState (at_pos + span_len p s) (drop (span_len p s) s) gs).
Proof.
  intros Hk. revert at_pos. induction s as [|c s IH]; intros at_pos.
  - simpl. by rewrite Nat.add_0_r.
  - cbn [repeat_class span_len]. destruct (p c).
    + cbn [no_more negb andb fmap option_fmap option_map Nat.pred].
      rewrite IH. destruct (Hk (MState (S at_pos + span_len p s)
                                  (drop (span_len p s) s) gs)) as [x Hx].
      rewrite Hx. cbn [or_else drop]. rewrite <- Hx. do 2 f_equal. lia.
    + simpl. by rewrite Nat.add_0_r.
Qed.

Lemma attempt_clean_later ma start s :
  0 < start -> attempt OPTION_CLEAN_PATTERN ma start s = None.
Proof.
  intros H. unfold attempt, OPTION_CLEAN_PATTERN. rewrite run_cat.
  cbn [run pos]. by destruct start; [lia|].
Qed.

Lemma search_clean_later start s :
  0 < start -> search_from OPTION_CLEAN_PATTERN false start s = None.
Proof.
  revert start. induction s as [|c s IH]; intros start H;
    cbn [search_from]; rewrite attempt_clean_later by done; [done|].
  apply IH. lia.
Qed.

(** The marker proper, with any continuation that fails on nothing. *)
Lemma run_marker {A : Type} st (k : mstate -> option A) :
  (forall st', is_Some (k st')) ->
  run (Group 1
         (Or (Repeat (fun c => in_range 97 100 c || in_range 65 68 c)
                1 (Some 1) true +> Class (one_of (txt ".)")))
             (Repeat isdecimal 1 (Some 1) true
              +> Class (one_of (txt ".)"))))) st k
  = match rest st with
    | c :: p :: r =>
        if marker_char c && punct_char p
        then k (MState (S (S (pos st))) r ((1, [c; p]) :: groups st))
        else None
    | _ => None
    end.
Proof.
  intros Hk. rewrite run_group. destruct st as [p0 r0 g0].
  unfold marker_char, punct_char.
  destruct r0 as [|c [|p r]];
    cbn [run pos rest groups repeat_class no_more negb andb fmap option_fmap
         option_map Nat.pred].
  - done.
  - by destruct (in_range 97 100 c || in_range 65 68 c), (isdecimal c).
  - rewrite ?andb_false_r. replace (S (S p0) - p0) with 2 by lia.
    cbn [take]. change (take 0 r) with (@nil ascii).
    destruct (Hk (MState (S (S p0)) r ((1, [c; p]) :: g0))) as [x Hx].
    rewrite Hx.
    by destruct (in_range 97 100 c || in_range 65 68 c), (isdecimal c),
      (one_of (txt ".)") p).
Qed.

Lemma run_spaces_total (k : mstate -> option match_obj) st :
  (forall st', is_Some (k st')) ->
  run (Repeat isspace 0 None true) st k
  = k (MState (pos st + span_len isspace (rest st)) (lstrip (rest st))
         (groups st)).
Proof.
  intros Hk. rewrite run_repeat, repeat_greedy_all by done.
  by rewrite lstrip_span.
Qed.

Lemma attempt_clean_start s :
  attempt OPTION_CLEAN_PATTERN false 0 s
  = match lstrip s with
    | c :: p :: r =>
        if marker_char c && punct_char p
        then Some (Match 0 (S (S (span_len isspace s)) + span_len isspace r)
                     [(1, [c; p])] (lstrip r))
        else None
    | _ => None
    end.
Proof.
  unfold attempt, OPTION_CLEAN_PATTERN. rewrite run_cat.
  change (run Bol (MState 0 s []) ?k) with (k (MState 0 s [])).
  cbv beta. rewrite run_cat, run_repeat. cbn [pos rest groups andb].
  assert (forall st', is_Some
            (run (Repeat isspace 0 None true) st'
               (fun st => Some (Match 0 (pos st) (groups st) (rest st)))))
    as Htail by (intros st'; rewrite run_spaces_total; eauto).
  rewrite repeat_greedy_max.
  - cbn [Nat.leb]. rewrite <- lstrip_span, run_cat, run_marker by done.
    cbn [pos rest groups]. destruct (lstrip s) as [|c [|p r]]; [done|done|].
    destruct (marker_char c && punct_char p); [|done].
    rewrite run_spaces_total by eauto. done.
  - intros st Hst. rewrite run_cat, run_marker by done.
    destruct (rest st) as [|c [|p r]]; [done|done|]. simpl in Hst.
    by rewrite (space_not_marker c Hst).
Qed.

Lemma finditer_clean s :
  finditer OPTION_CLEAN_PATTERN s
  = match attempt OPTION_CLEAN_PATTERN false 0 s with
    | Some m => [m]
    | None => []
    end.
Proof.
  unfold finditer. cbn [Nat.mul Nat.add finditer_from].
  replace (length s + (length s + 0) + 2) with (S (S (2 * length s)))
    by (simpl; lia).
  cbn [finditer_from].
  assert (search_from OPTION_CLEAN_PATTERN false 0 s
          = attempt OPTION_CLEAN_PATTERN false 0 s) as ->.
  { destruct s as [|c s]; cbn [search_from];
      destruct (attempt OPTION_CLEAN_PATTERN false 0 _) eqn:E; try done.
    apply search_clean_later. lia. }
  rewrite attempt_clean_start.
  destruct (lstrip s) as [|c [|p r]]; [done|done|].
  destruct (marker_char c && punct_char p); [|done].
  cbn [m_end m_start m_after Nat.eqb]. by rewrite search_clean_later by lia.
Qed.

(** X8: cleaning an option for display drops the white space at its ends
    and, when what is left starts with a letter from a to d (either case) or
    a digit followed by a dot or a closing parenthesis, those two characters
    and the white space after them, whatever comes next: a bare marker line
    such as a) becomes empty, and 3.5 volts becomes 5 volts. *)
Theorem clean_option_strips_marker :
  (forall option, clean_option option = strip_marker option)
  /\ (forall c p rest,
        marker_char c = true -> punct_char p = true ->
        clean_option (c :: p :: rest) = strip rest).
Proof.
  assert (forall option, clean_option option = strip_marker option) as H.
  { intros option. unfold clean_option, strip_marker, re_sub.
    rewrite finditer_clean, attempt_clean_start.
    destruct (lstrip option) as [|c [|p r]]; [done|done|].
    destruct (marker_char c && punct_char p); [|done].
    cbn [sub_from m_start m_end m_after Nat.sub take app].
    apply strip_lstrip. }
  split; [done|]. intros c p rest Hc Hp. rewrite H. unfold strip_marker.
  assert (isspace c = false) as Hs.
  { destruct (isspace c) eqn:E; [|done].
    by rewrite (space_not_marker c E) in Hc. }
  cbn [lstrip]. by rewrite Hs, Hc, Hp.
Qed.

Lemma clean_option_strips_marker_witness :
  clean_option (txt "3.5 volts") = txt "5 volts".
Proof.
  exact (proj2 clean_option_strips_marker "3" "." (txt "5 volts")
           eq_refl eq_refl).
Defined.

Lemma option_lines_from i opts :
  option_lines i opts = zip_with option_line (drop i option_letters) opts.
Proof.
  revert i. induction opts as [|o opts IH]; intros i.
  - by destruct (drop i option_letters).
  - cbn [option_lines]. rewrite IH.
    destruct i as [|[|[|[|i]]]]; try done.
    change (drop (S (S (S (S (S i))))) option_letters)
      with (drop (S i) (@nil text)).
    change (drop (S (S (S (S i)))) option_letters) with (drop i (@nil text)).
    by rewrite !drop_nil.
Qed.

(** X9: the formatter prints one line for each of the first four options,
    under the letters A to D in order, and none for later options; the items
    a parse returns never have later options, so each of their options is
    printed. *)
Theorem options_printed_by_letter :
  (forall opts,
      option_lines 0 opts = zip_with option_line option_letters opts
      /\ length (option_lines 0 opts) = length opts `min` 4)
  /\ forall blob out items,
       parse_quiz_content blob = (out, Returned items) ->
       Forall (fun it =>
                 length (option_lines 0 (options it))
                 = length (options it)) items.
Proof.
  assert (forall opts,
            option_lines 0 opts = zip_with option_line option_letters opts
            /\ length (option_lines 0 opts) = length opts `min` 4) as H.
  { intros opts. rewrite option_lines_from. split; [done|].
    rewrite length_zip_with. change (length (drop 0 option_letters)) with 4. lia. }
  split; [done|]. intros blob out items (am & _ & -> & _)%parse_items.
  apply Forall_forall. intros it Hit.
  apply list_elem_of_In, in_map_iff in Hit as (b & <- & _).
  destruct (H (options (item_of am b))) as [_ ->].
  pose proof (segmented_clean b.2) as [Hlen _].
  unfold item_of. cbn [options]. lia.
Qed.

Lemma options_printed_by_letter_witness :
  Forall (fun it =>
            length (option_lines 0 (options it)) = length (options it))
    [sky_item (txt "a")].
Proof.
  apply (proj2 options_printed_by_letter sky_blob [] [sky_item (txt "a")]).
  vm_compute. reflexivity.
Defined.

Lemma answer_line_missing it :
  answer_letter it = NOT_FOUND -> answer_line it = missing_line.
Proof. intros H. unfold answer_line. by rewrite H. Qed.

Lemma answer_line_letter it c :
  in_range 97 100 c = true -> answer_letter it = [c] ->
  answer_line it = letter_line c.
Proof.
  intros Hc H. unfold answer_line. rewrite H.
  by destruct (in_range_letter c Hc) as [->|[->|[->| ->]]].
Qed.

(** X10: for the items a parse returns the formatter prints the missing-key
    line exactly when the answer map has no entry for the number of the
    item, and otherwise the line with the letter of the map and its
    capital. *)
Theorem answer_line_of_items blob out items :
  blob <> [] ->
  parse_quiz_content blob = (out, Returned items) ->
  exists am : gmap N text,
    extract_answers blob = (out, Returned am)
    /\ Forall (fun it =>
                 match am !! q_no it with
                 | None => answer_line it = missing_line
                 | Some v =>
                     exists c, in_range 97 100 c = true /\ v = [c]
                               /\ answer_line it = letter_line c
                 end) items.
Proof.
  intros Hne (am & He & -> & _)%parse_items. specialize (He Hne).
  exists am. split; [done|].
  apply Forall_forall. intros it Hit.
  apply list_elem_of_In, in_map_iff in Hit as (b & <- & _).
  unfold item_of at 1. cbn [q_no].
  destruct (am !! int_digits b.1) as [v|] eqn:Hv.
  + destruct (extract_answers_letters _ _ _ He _ _ Hv) as (c & Hc & ->).
    exists c. split; [done|]. split; [done|].
    apply answer_line_letter; [done|].
    exact (f_equal (default NOT_FOUND) Hv).
  + apply answer_line_missing.
    exact (f_equal (default NOT_FOUND) Hv).
Qed.

Lemma answer_line_of_items_witness :
  exists am : gmap N text,
    extract_answers sky_blob = ([], Returned am)
    /\ Forall (fun it =>
                 match am !! q_no it with
                 | None => answer_line it = missing_line
                 | Some v =>
                     exists c, in_range 97 100 c = true /\ v = [c]
                               /\ answer_line it = letter_line c
                 end) [sky_item (txt "a")].
Proof.
  apply (answer_line_of_items sky_blob [] [sky_item (txt "a")]).
  - discriminate.
  - vm_compute. reflexivity.
Defined.

(** ** Option lines *)

(** X11: on a line without white space at its ends, as every line of a body
    is, the option test holds exactly for a marker character followed by a
    dot or a closing parenthesis and nothing more, or for three or four word
    characters and nothing more: a line such as A) Blue is no option line,
    and a word such as True is one. *)
Theorem option_line_is_short :
  (forall line, tight line -> is_option_line line = short_option line)
  /\ forall body,
       Forall (fun l => is_option_line l = short_option l)
         (trimmed_lines body).
Proof.
  split; [exact is_option_line_short|]. intros body.
  eapply Forall_impl; [apply trimmed_lines_tight|].
  intros l [Hl _]. by apply is_option_line_short.
Qed.

Lemma option_line_is_short_witness :
  is_option_line (txt "A) Blue") = false
  /\ is_option_line (txt "True") = true.
Proof.
  split.
  - exact (proj1 option_line_is_short (txt "A) Blue")
             (conj eq_refl eq_refl)).
  - exact (proj1 option_line_is_short (txt "True") (conj eq_refl eq_refl)).
Defined.

(** ** Printed numbers *)

(** X14: a number that [int] has read from the digits [D] is written as [D]
    without its leading zeros (a single 0 when nothing else is left), and a
    number that can be written reads back as itself; so an item whose
    number was read from [D] is headed by Q, those digits, a dot, a space
    and the question text, and formatting it raises nothing. *)
Theorem question_number_printed :
  (forall D n, int D = ret n -> str_of_N n = Returned (canonical D))
  /\ (forall n s, str_of_N n = Returned s -> int s = ret n)
  /\ (forall D it,
        int D = ret (q_no it) ->
        exists rest,
          format_item it
          = ((utxt "Q" ++ up (canonical D) ++ utxt ". " ++ up (question it))
             :: rest, Returned tt)).
Proof.
  split; [exact str_of_int|]. split; [exact int_of_str|].
  intros D it HD. unfold format_item. rewrite (str_of_int _ _ HD).
  by eexists.
Qed.

Lemma question_number_printed_witness :
  exists rest,
    format_item {| q_no := 7; question := txt "Why?"; options := [];
                   answer_letter := NOT_FOUND |}
    = (utxt "Q7. Why?" :: rest, Returned tt).
Proof.
  exact (proj2 (proj2 question_number_printed) (txt "007")
           {| q_no := 7; question := txt "Why?"; options := [];
              answer_letter := NOT_FOUND |} eq_refl).
Defined.

(** ** The script *)

Lemma joined_paragraphs_empty (ps : list text) :
  join [LF; LF] (map strip ps) = []
  <-> ps = [] \/ exists p, ps = [p] /\ strip p = [].
Proof.
  destruct ps as [|p [|q ps]].
  - split; [by left|done].
  - cbn [map join]. split.
    + intros H. right. by exists p.
    + by intros [|(p' & [= <-] & H)].
  - split.
    + change (map strip (p :: q :: ps)) with (strip p :: map strip (q :: ps)).
      rewrite join_cons by done. by destruct (strip p).
    + by intros [|(p' & [=] & _)].
Qed.

(** The numbers of the items a parse returns can be written. *)
Lemma parsed_numbers_print blob out items :
  parse_quiz_content blob = (out, Returned items) ->
  Forall (fun it => str_of_N (q_no it) = Returned (digits_of_N (q_no it)))
    items.
Proof.
  intros (am & _ & -> & Hfit)%parse_items.
  pose proof (scan_blocks_digits _ _ (finditer_question blob)) as Hd.
  apply numbers_fit_Forall in Hfit. rewrite Forall_map in Hfit.
  apply Forall_map. rewrite Forall_forall in Hd, Hfit.
  apply Forall_forall. intros b Hb.
  destruct (Hd b Hb) as [Hne HD]. specialize (Hfit b Hb).
  unfold item_of at 1 2. cbn [q_no].
  rewrite (str_of_int b.1 (int_digits b.1)) by by apply int_digits_fit.
  by rewrite digits_of_int_digits.
Qed.

Lemma format_items_returns items :
  Forall (fun it => str_of_N (q_no it) = Returned (digits_of_N (q_no it)))
    items ->
  format_items items
  = (concat (map (fun it => item_lines (digits_of_N (q_no it)) it) items),
     Returned tt).
Proof.
  induction 1 as [|it items Hit _ IH]; [done|].
  cbn [format_items map concat]. unfold format_item. by rewrite Hit, IH.
Qed.

Lemma main_opened ps :
  main (DocxOpened ps)
  = if nonempty (join [LF; LF] (map strip ps))
    then match parse_quiz_content (join [LF; LF] (map strip ps)) with
         | (warn, Returned items) =>
             (READING_LINE
              :: map up warn ++ BANNER
                 ++ concat (map (fun it =>
                                   item_lines (digits_of_N (q_no it)) it)
                              items),
              Returned tt)
         | (warn, Raised e) => (READING_LINE :: map up warn, Raised e)
         end
    else ([READING_LINE; TERMINATED_LINE], Returned tt).
Proof.
  unfold main, read_docx_to_string.
  destruct (join [LF; LF] (map strip ps)) as [|c s]; [done|].
  cbn [nonempty].
  destruct (parse_quiz_content (c :: s)) as [warn [items|e]] eqn:Hp;
    [|done].
  unfold format_and_print_output.
  by rewrite (format_items_returns items (parsed_numbers_print _ _ _ Hp)).
Qed.

(** X12: the script always prints the reading line first.  When the
    document cannot be opened it then prints the error and the termination
    line; when the joined paragraphs are empty, the termination line alone;
    in both cases it ends normally.  Otherwise it prints what the parse
    prints; when the parse returns, the banner and the lines of every item
    follow and the script ends normally (writing the numbers of parsed
    items raises nothing); when the parse raises, the script ends with that
    exception. *)
Theorem script_output :
  forall d, exists printed o,
    main d = (READING_LINE :: printed, o)
    /\ match d with
       | DocxError message =>
           printed
           = [utxt "Error reading DOCX file: " ++ message; TERMINATED_LINE]
           /\ o = Returned tt
       | DocxOpened paragraph_texts =>
           let blob := join [LF; LF] (map strip paragraph_texts) in
           if nonempty blob
           then match parse_quiz_content blob with
                | (warn, Returned items) =>
                    printed
                    = map up warn ++ BANNER
                      ++ concat (map (fun it =>
                                        item_lines (digits_of_N (q_no it)) it)
                                   items)
                    /\ o = Returned tt
                | (warn, Raised e) => printed = map up warn /\ o = Raised e
                end
           else printed = [TERMINATED_LINE] /\ o = Returned tt
       end.
Proof.
  intros [ps|e]; [|by eexists _, _].
  rewrite main_opened. cbn zeta.
  destruct (nonempty (join [LF; LF] (map strip ps))); [|by eexists _, _].
  by destruct (parse_quiz_content _) as [warn [items|e]]; eexists _, _.
Qed.

(** X13: for a document that opens, the script prints the reading line and
    the termination line and nothing else exactly when the document has no
    paragraph, or one paragraph of white space only; two or more paragraphs,
    even blank ones, are parsed and formatted. *)
Theorem blank_document_is_reading_error :
  forall paragraph_texts,
    main (DocxOpened paragraph_texts)
    = ([READING_LINE; TERMINATED_LINE], Returned tt)
    <-> paragraph_texts = []
        \/ exists p, paragraph_texts = [p] /\ strip p = [].
Proof.
  intros ps. rewrite <- joined_paragraphs_empty, main_opened.
  destruct (join [LF; LF] (map strip ps)) as [|c s]; [done|].
  cbn [nonempty]. split; [|done].
  destruct (parse_quiz_content (c :: s)) as [warn [items|e]]; [|done].
  intros [= H]. apply (f_equal length) in H.
  rewrite !length_app in H. simpl in H. lia.
Qed.

(** ** Inputs that cannot raise *)

(** X15: a blob of at most 4300 characters holds no number that the
    conversions refuse, so its parse returns, having printed the warning
    or nothing. *)
Theorem short_blob_never_raises blob :
  length blob <= MAX_STR_DIGITS ->
  exists items,
    parse_quiz_content blob = (header_warning blob, Returned items).
Proof.
  intros Hl. rewrite parse_outcome.
  assert (numbers_fit (entry_numbers (key_text blob)) = true) as ->.
  { apply entry_numbers_fit. intros i D c H%entry_at_length.
    pose proof (key_text_length blob). lia. }
  rewrite (numbers_fit_short _ (length blob) Hl); [by eexists|].
  rewrite Forall_map.
  exact (scan_blocks_length _ _ (finditer_question blob)).
Qed.

Lemma short_blob_never_raises_witness :
  exists items, parse_quiz_content sky_blob = ([], Returned items).
Proof.
  apply (short_blob_never_raises sky_blob). vm_compute. lia.
Defined.
